(** * SpotiFLAC download-progress store: a shallow embedding of
      [backend/progress.go] and the properties of its queue, session
      accounting, active-download counter and progress sampler.

    Conventions of the embedding.
    - Go [int64] values are integers in [Z]; every arithmetic operation the
      source performs on them is written with its two's-complement
      wrap-around ([Int64.add], [Int64.sub]).
    - Go [float64] values are Rocq's primitive binary64 floats, so sums and
      quotients are the IEEE ones the program computes.
    - The package-level variables form one record, [Store]; every exported
      function is a function from stores to stores.  The mutexes only
      serialise the calls and are not represented: the development is about
      sequences of completed calls.
    - Clock readings ([time.Now().Unix()], [getCurrentTimeMillis()]) are an
      argument [now] of the call that takes them.  [CancelAllQueuedItems]
      reads the clock inside its loop, once for every record it cancels; it
      takes a [clock : nat → Z], where [clock i] is the reading taken while
      the loop is at index [i].
    - [fmt.Printf] console output is not part of the store and is left out. *)

From Stdlib Require Import ZArith Floats Uint63 Lia.
From Stdlib.Strings Require Import Byte.
From stdpp Require Import base option list strings.

Local Open Scope Z_scope.

(** ** Machine integers and floats *)

Module Int64.

Definition min_int : Z := - 2 ^ 63.
Definition max_int : Z := 2 ^ 63 - 1.

(** Two's-complement reduction into [min_int .. max_int]. *)
Definition wrap (z : Z) : Z := (z + 2 ^ 63) mod 2 ^ 64 - 2 ^ 63.

Definition add (a b : Z) : Z := wrap (a + b).
Definition sub (a b : Z) : Z := wrap (a - b).

Definition in_range (z : Z) : Prop := min_int <= z <= max_int.

(** [float64(z)] for an [int64] value: round to nearest, ties to even. *)
Definition to_float (z : Z) : float :=
  if z =? min_int then (-9223372036854775808)%float
  else if z <? 0 then PrimFloat.opp (PrimFloat.of_uint63 (Uint63.of_Z (- z)))
  else PrimFloat.of_uint63 (Uint63.of_Z z).

End Int64.

Arguments Int64.wrap : simpl never.
Arguments Int64.add : simpl never.
Arguments Int64.sub : simpl never.
Arguments Int64.to_float : simpl never.

(** ** Data model *)

Inductive DownloadStatus : Set :=
| StatusQueued
| StatusDownloading
| StatusCompleted
| StatusFailed
| StatusSkipped.

#[global] Instance DownloadStatus_eq_dec : EqDecision DownloadStatus.
Proof. solve_decision. Defined.

Record DownloadItem : Type := mkItem {
  ID : string;
  TrackName : string;
  ArtistName : string;
  AlbumName : string;
  SpotifyID : string;
  Status : DownloadStatus;
  Progress : float;
  TotalSize : float;
  Speed : float;
  StartTime : Z;
  EndTime : Z;
  ErrorMessage : string;
  FilePath : string
}.

(** Field assignments [item.F = v]. *)
Definition set_Status (v : DownloadStatus) (it : DownloadItem) : DownloadItem :=
  mkItem (ID it) (TrackName it) (ArtistName it) (AlbumName it) (SpotifyID it)
         v (Progress it) (TotalSize it) (Speed it) (StartTime it) (EndTime it)
         (ErrorMessage it) (FilePath it).
Definition set_Progress (v : float) (it : DownloadItem) : DownloadItem :=
  mkItem (ID it) (TrackName it) (ArtistName it) (AlbumName it) (SpotifyID it)
         (Status it) v (TotalSize it) (Speed it) (StartTime it) (EndTime it)
         (ErrorMessage it) (FilePath it).
Definition set_TotalSize (v : float) (it : DownloadItem) : DownloadItem :=
  mkItem (ID it) (TrackName it) (ArtistName it) (AlbumName it) (SpotifyID it)
         (Status it) (Progress it) v (Speed it) (StartTime it) (EndTime it)
         (ErrorMessage it) (FilePath it).
Definition set_Speed (v : float) (it : DownloadItem) : DownloadItem :=
  mkItem (ID it) (TrackName it) (ArtistName it) (AlbumName it) (SpotifyID it)
         (Status it) (Progress it) (TotalSize it) v (StartTime it) (EndTime it)
         (ErrorMessage it) (FilePath it).
Definition set_StartTime (v : Z) (it : DownloadItem) : DownloadItem :=
  mkItem (ID it) (TrackName it) (ArtistName it) (AlbumName it) (SpotifyID it)
         (Status it) (Progress it) (TotalSize it) (Speed it) v (EndTime it)
         (ErrorMessage it) (FilePath it).
Definition set_EndTime (v : Z) (it : DownloadItem) : DownloadItem :=
  mkItem (ID it) (TrackName it) (ArtistName it) (AlbumName it) (SpotifyID it)
         (Status it) (Progress it) (TotalSize it) (Speed it) (StartTime it) v
         (ErrorMessage it) (FilePath it).
Definition set_ErrorMessage (v : string) (it : DownloadItem) : DownloadItem :=
  mkItem (ID it) (TrackName it) (ArtistName it) (AlbumName it) (SpotifyID it)
         (Status it) (Progress it) (TotalSize it) (Speed it) (StartTime it)
         (EndTime it) v (FilePath it).
Definition set_FilePath (v : string) (it : DownloadItem) : DownloadItem :=
  mkItem (ID it) (TrackName it) (ArtistName it) (AlbumName it) (SpotifyID it)
         (Status it) (Progress it) (TotalSize it) (Speed it) (StartTime it)
         (EndTime it) (ErrorMessage it) v.

(** The package-level variables. *)
Record Store : Type := mkStore {
  currentProgress : float;
  activeDownloads : Z;
  currentSpeed : float;
  downloadQueue : list DownloadItem;
  currentItemID : string;
  totalDownloaded : float;
  sessionStartTime : Z
}.

Definition set_currentProgress (v : float) (s : Store) : Store :=
  mkStore v (activeDownloads s) (currentSpeed s) (downloadQueue s)
          (currentItemID s) (totalDownloaded s) (sessionStartTime s).
Definition set_activeDownloads (v : Z) (s : Store) : Store :=
  mkStore (currentProgress s) v (currentSpeed s) (downloadQueue s)
          (currentItemID s) (totalDownloaded s) (sessionStartTime s).
Definition set_currentSpeed (v : float) (s : Store) : Store :=
  mkStore (currentProgress s) (activeDownloads s) v (downloadQueue s)
          (currentItemID s) (totalDownloaded s) (sessionStartTime s).
Definition set_downloadQueue (v : list DownloadItem) (s : Store) : Store :=
  mkStore (currentProgress s) (activeDownloads s) (currentSpeed s) v
          (currentItemID s) (totalDownloaded s) (sessionStartTime s).
Definition set_currentItemID (v : string) (s : Store) : Store :=
  mkStore (currentProgress s) (activeDownloads s) (currentSpeed s)
          (downloadQueue s) v (totalDownloaded s) (sessionStartTime s).
Definition set_totalDownloaded (v : float) (s : Store) : Store :=
  mkStore (currentProgress s) (activeDownloads s) (currentSpeed s)
          (downloadQueue s) (currentItemID s) v (sessionStartTime s).
Definition set_sessionStartTime (v : Z) (s : Store) : Store :=
  mkStore (currentProgress s) (activeDownloads s) (currentSpeed s)
          (downloadQueue s) (currentItemID s) (totalDownloaded s) v.

(** The store a freshly started process has: Go zero values throughout. *)
Definition initial_store : Store :=
  mkStore 0%float 0 0%float [] "" 0%float 0.

Record ProgressInfo : Type := mkProgressInfo {
  pi_IsDownloading : bool;
  pi_MBDownloaded : float;
  pi_SpeedMBps : float
}.

Record DownloadQueueInfo : Type := mkQueueInfo {
  qi_IsDownloading : bool;
  qi_Queue : list DownloadItem;
  qi_CurrentSpeed : float;
  qi_TotalDownloaded : float;
  qi_SessionStartTime : Z;
  qi_QueuedCount : Z;
  qi_CompletedCount : Z;
  qi_FailedCount : Z;
  qi_SkippedCount : Z
}.

(** ** Active-count tracker and instantaneous aggregates *)

Definition GetDownloadProgress (s : Store) : ProgressInfo :=
  mkProgressInfo (0 <? activeDownloads s) (currentProgress s) (currentSpeed s).

Definition SetDownloadSpeed (mbps : float) (s : Store) : Store :=
  set_currentSpeed mbps s.

Definition SetDownloadProgress (mbDownloaded : float) (s : Store) : Store :=
  set_currentProgress mbDownloaded s.

Definition SetDownloading (downloading : bool) (s : Store) : Store :=
  if downloading then
    set_activeDownloads (Int64.add (activeDownloads s) 1) s
  else
    let s1 := set_activeDownloads (Int64.add (activeDownloads s) (-1)) s in
    if activeDownloads s1 <=? 0 then
      SetDownloadSpeed 0 (SetDownloadProgress 0 (set_activeDownloads 0 s1))
    else s1.

(** ** Download queue store *)

(** [for i := range downloadQueue { if downloadQueue[i].ID == id { ...; break } }]:
    the index and record the loop body runs on, if any. *)
Definition find_by_id (id : string) (q : list DownloadItem)
  : option (nat * DownloadItem) :=
  list_find (λ it, ID it = id) q.

Definition pending (it : DownloadItem) : bool :=
  bool_decide (Status it = StatusQueued) || bool_decide (Status it = StatusDownloading).

Definition AddToQueue (now : Z) (id trackName artistName albumName spotifyID : string)
    (s : Store) : Store :=
  let item := mkItem id trackName artistName albumName spotifyID
                     StatusQueued 0 0 0 0 0 "" "" in
  let s1 := set_downloadQueue (downloadQueue s ++ [item]) s in
  if sessionStartTime s1 =? 0 then set_sessionStartTime now s1 else s1.

Definition StartDownloadItem (now : Z) (id : string) (s : Store) : Store :=
  let s1 :=
    match find_by_id id (downloadQueue s) with
    | Some (i, it) =>
        set_downloadQueue
          (<[i := set_Progress 0 (set_StartTime now (set_Status StatusDownloading it))]>
             (downloadQueue s)) s
    | None => s
    end in
  set_currentItemID id s1.

Definition UpdateItemProgress (id : string) (progress speed : float) (s : Store) : Store :=
  match find_by_id id (downloadQueue s) with
  | Some (i, it) =>
      set_downloadQueue
        (<[i := set_Speed speed (set_Progress progress it)]> (downloadQueue s)) s
  | None => s
  end.

Definition GetCurrentItemID (s : Store) : string := currentItemID s.

Definition CompleteDownloadItem (now : Z) (id filePath : string) (finalSize : float)
    (s : Store) : Store :=
  match find_by_id id (downloadQueue s) with
  | Some (i, it) =>
      let it' := set_TotalSize finalSize (set_Progress finalSize
                   (set_FilePath filePath (set_EndTime now
                     (set_Status StatusCompleted it)))) in
      let s1 := set_downloadQueue (<[i := it']> (downloadQueue s)) s in
      set_totalDownloaded (totalDownloaded s1 + finalSize)%float s1
  | None => s
  end.

Definition FailDownloadItem (now : Z) (id errorMsg : string) (s : Store) : Store :=
  match find_by_id id (downloadQueue s) with
  | Some (i, it) =>
      set_downloadQueue
        (<[i := set_ErrorMessage errorMsg (set_EndTime now
                  (set_Status StatusFailed it))]> (downloadQueue s)) s
  | None => s
  end.

Definition SkipDownloadItem (now : Z) (id filePath : string) (s : Store) : Store :=
  match find_by_id id (downloadQueue s) with
  | Some (i, it) =>
      set_downloadQueue
        (<[i := set_FilePath filePath (set_EndTime now
                  (set_Status StatusSkipped it))]> (downloadQueue s)) s
  | None => s
  end.

(** The loop of [ResetSessionIfComplete]: is some record Queued or Downloading? *)
Definition hasActiveOrQueued (q : list DownloadItem) : bool := existsb pending q.

Definition ResetSessionIfComplete (s : Store) : Store :=
  if negb (hasActiveOrQueued (downloadQueue s)) then
    set_totalDownloaded 0 (set_sessionStartTime 0 s)
  else s.

(** [queued, completed, failed, skipped] after the counting loop. *)
Definition count_status (q : list DownloadItem) : Z * Z * Z * Z :=
  fold_left
    (λ '(queued, completed, failed, skipped) item,
       match Status item with
       | StatusQueued => (queued + 1, completed, failed, skipped)
       | StatusCompleted => (queued, completed + 1, failed, skipped)
       | StatusFailed => (queued, completed, failed + 1, skipped)
       | StatusSkipped => (queued, completed, failed, skipped + 1)
       | StatusDownloading => (queued, completed, failed, skipped)
       end)
    q (0, 0, 0, 0).

Definition GetDownloadQueue (s : Store) : DownloadQueueInfo * Store :=
  let s1 := ResetSessionIfComplete s in
  let '(queued, completed, failed, skipped) := count_status (downloadQueue s1) in
  (mkQueueInfo (0 <? activeDownloads s1) (downloadQueue s1) (currentSpeed s1)
               (totalDownloaded s1) (sessionStartTime s1)
               queued completed failed skipped,
   s1).

(** [for _, item := range downloadQueue { if ... { newQueue = append(newQueue, item) } }] *)
Definition ClearDownloadQueue (s : Store) : Store :=
  let newQueue :=
    fold_left (λ newQueue item, if pending item then newQueue ++ [item] else newQueue)
              (downloadQueue s) [] in
  set_downloadQueue newQueue s.

Definition ClearAllDownloads (s : Store) : Store :=
  SetDownloadSpeed 0 (SetDownloadProgress 0
    (set_currentItemID "" (set_sessionStartTime 0
      (set_totalDownloaded 0 (set_downloadQueue [] s))))).

(** One iteration of the loop of [CancelAllQueuedItems], at index [i].  The
    body calls [time.Now().Unix()] itself, so every cancelled record gets a
    reading of its own: [clock i] is what the clock returns when it is read
    during iteration [i].  (Any sequence of readings, one per cancelled
    record, is such a function of the index; nothing is assumed of it.) *)
Definition cancel_at (clock : nat → Z) (q : list DownloadItem) (i : nat)
  : list DownloadItem :=
  match q !! i with
  | Some it =>
      if bool_decide (Status it = StatusQueued) then
        <[i := set_ErrorMessage "Cancelled" (set_EndTime (clock i)
                  (set_Status StatusSkipped it))]> q
      else q
  | None => q
  end.

(** [for i := range downloadQueue { ... }], the queue being updated in place. *)
Definition CancelAllQueuedItems (clock : nat → Z) (s : Store) : Store :=
  set_downloadQueue
    (fold_left (cancel_at clock) (seq 0 (length (downloadQueue s))) (downloadQueue s)) s.

(** ** Progress sampler *)

(** A Go [error] value: [None] is [nil], [Some msg] an error with that text. *)
Definition error : Type := option string.

(** The [io.Writer] interface.  A sink of type [W] consumes a buffer and
    reports how many bytes it took and an error; its own state may change. *)
Class Writer (W : Type) : Type :=
  io_Write : W → list byte → W * (Z * error).

(** [len(p)] *)
Definition len {A : Type} (p : list A) : Z := Z.of_nat (length p).

Record ProgressWriter (W : Type) : Type := mkProgressWriter {
  writer : W;
  total : Z;
  lastPrinted : Z;
  startTime : Z;
  lastTime : Z;
  lastBytes : Z;
  itemID : string
}.
Arguments mkProgressWriter {W} _ _ _ _ _ _ _.
Arguments writer {W} _.
Arguments total {W} _.
Arguments lastPrinted {W} _.
Arguments startTime {W} _.
Arguments lastTime {W} _.
Arguments lastBytes {W} _.
Arguments itemID {W} _.

Definition NewProgressWriter {W : Type} (now : Z) (w : W) : ProgressWriter W :=
  mkProgressWriter w 0 0 now now 0 "".

Definition NewProgressWriterWithID {W : Type} (now : Z) (w : W) (id : string)
  : ProgressWriter W :=
  let pw := NewProgressWriter now w in
  mkProgressWriter (writer pw) (total pw) (lastPrinted pw) (startTime pw)
                   (lastTime pw) (lastBytes pw) id.

(** What one call of [Write] pushes into the store, in program order. *)
Inductive Publication : Type :=
| PubSpeed (mbps : float)                         (* SetDownloadSpeed *)
| PubProgress (mbDownloaded : float)              (* SetDownloadProgress *)
| PubItem (id : string) (progress speed : float). (* UpdateItemProgress *)

Definition is_PubSpeed (e : Publication) : bool :=
  match e with PubSpeed _ => true | _ => false end.

(** The setter call a publication stands for. *)
Definition publish (e : Publication) (s : Store) : Store :=
  match e with
  | PubSpeed v => SetDownloadSpeed v s
  | PubProgress v => SetDownloadProgress v s
  | PubItem id p v => UpdateItemProgress id p v s
  end.

Record WriteOutcome (W : Type) : Type := mkOutcome {
  out_pw : ProgressWriter W;       (* the sampler after the call *)
  out_store : Store;               (* the package state after the call *)
  out_n : Z;                       (* first result of Write *)
  out_err : error;                 (* second result of Write *)
  out_published : list Publication (* setters called, oldest first *)
}.
Arguments mkOutcome {W} _ _ _ _ _.
Arguments out_pw {W} _.
Arguments out_store {W} _.
Arguments out_n {W} _.
Arguments out_err {W} _.
Arguments out_published {W} _.

(** The sampling threshold [256*1024] and the constant [1024 * 1024]. *)
Definition sample_threshold : Z := 256 * 1024.
Definition MiB : float := 1048576%float.

(** [timeDiff], as [Write] computes it from two clock readings. *)
Definition timeDiff_of (now lastTime : Z) : float :=
  (Int64.to_float (Int64.sub now lastTime) / 1000)%float.

Definition Write {W : Type} `{Writer W} (now : Z) (p : list byte)
    (pw : ProgressWriter W) (s : Store) : WriteOutcome W :=
  let '(w', (n, err)) := io_Write (writer pw) p in   (* n, err := pw.writer.Write(p) *)
  let total' := Int64.add (total pw) n in            (* pw.total += int64(n) *)
  if sample_threshold <=? Int64.sub total' (lastPrinted pw) then
    let mbDownloaded := (Int64.to_float total' / MiB)%float in
    let timeDiff := timeDiff_of now (lastTime pw) in
    let bytesDiff := Int64.to_float (Int64.sub total' (lastBytes pw)) in
    let '(speedMBps, s1, log1) :=                    (* var speedMBps float64 *)
      if (0 <? timeDiff)%float then
        let v := ((bytesDiff / MiB) / timeDiff)%float in
        (v, SetDownloadSpeed v s, [PubSpeed v])
      else (0%float, s, []) in
    let s2 := SetDownloadProgress mbDownloaded s1 in
    let log2 := log1 ++ [PubProgress mbDownloaded] in
    let '(s3, log3) :=
      if bool_decide (itemID pw ≠ "") then
        (UpdateItemProgress (itemID pw) mbDownloaded speedMBps s2,
         log2 ++ [PubItem (itemID pw) mbDownloaded speedMBps])
      else (s2, log2) in
    (* pw.lastPrinted = pw.total; pw.lastTime = now; pw.lastBytes = pw.total *)
    mkOutcome
      (mkProgressWriter w' total' total' (startTime pw) now total' (itemID pw))
      s3 n err log3
  else
    mkOutcome
      (mkProgressWriter w' total' (lastPrinted pw) (startTime pw)
                        (lastTime pw) (lastBytes pw) (itemID pw))
      s n err [].

Definition GetTotal {W : Type} (pw : ProgressWriter W) : Z := total pw.

(** A stream handed to the sampler buffer by buffer; each element carries the
    clock reading [Write] would take during that call.  The result is the
    final sampler and store, the list of [(n, err)] results and the
    publications of all calls. *)
Fixpoint feed {W : Type} `{Writer W} (calls : list (Z * list byte))
    (pw : ProgressWriter W) (s : Store)
  : ProgressWriter W * Store * list (Z * error) * list Publication :=
  match calls with
  | [] => (pw, s, [], [])
  | (now, p) :: rest =>
      let o := Write now p pw s in
      let '(pw', s', results, log) := feed rest (out_pw o) (out_store o) in
      (pw', s', (out_n o, out_err o) :: results, out_published o ++ log)
  end.

(** A stream cut into buffers of [k] bytes, the last one possibly shorter
    (what a copy loop with a [k]-byte buffer hands to [Write]). *)
Fixpoint chunks_fuel (fuel : nat) (k : nat) (data : list byte) : list (list byte) :=
  match fuel with
  | O => []
  | S fuel' =>
      match data with
      | [] => []
      | _ => take k data :: chunks_fuel fuel' k (drop k data)
      end
  end.
Definition chunks (k : nat) (data : list byte) : list (list byte) :=
  chunks_fuel (length data) k data.

(** Two sinks used to run the sampler on concrete inputs. *)

(** An in-memory buffer: takes every byte, never fails. *)
Record Buffer : Type := mkBuffer { buf_bytes : list byte }.
#[global] Instance Buffer_Writer : Writer Buffer :=
  λ b p, (mkBuffer (buf_bytes b ++ p), (len p, None)).

(** A sink with room for [room] more bytes: a buffer that does not fit is
    written as far as it goes and reported with an error. *)
Record Limited : Type := mkLimited { lim_bytes : list byte; lim_room : nat }.
#[global] Instance Limited_Writer : Writer Limited :=
  λ l p,
    if (length p <=? lim_room l)%nat then
      (mkLimited (lim_bytes l ++ p) (lim_room l - length p), (len p, None))
    else
      (mkLimited (lim_bytes l ++ take (lim_room l) p) 0,
       (Z.of_nat (lim_room l), Some "short write")).

(** ** Sequences of calls *)

(** The exported operations on the store, as values. *)
Inductive Call : Type :=
| CallAddToQueue (id trackName artistName albumName spotifyID : string)
| CallStartDownloadItem (id : string)
| CallUpdateItemProgress (id : string) (progress speed : float)
| CallCompleteDownloadItem (id filePath : string) (finalSize : float)
| CallFailDownloadItem (id errorMsg : string)
| CallSkipDownloadItem (id filePath : string)
| CallCancelAllQueuedItems (clock : nat → Z)
| CallClearDownloadQueue
| CallClearAllDownloads
| CallGetDownloadQueue
| CallResetSessionIfComplete
| CallSetDownloading (downloading : bool)
| CallSetDownloadSpeed (mbps : float)
| CallSetDownloadProgress (mbDownloaded : float).

(** One call, made when the clock reads [now]; cancelAllQueued carries the
    readings of its loop instead. *)
Definition exec (now : Z) (c : Call) (s : Store) : Store :=
  match c with
  | CallAddToQueue id tn an al sid => AddToQueue now id tn an al sid s
  | CallStartDownloadItem id => StartDownloadItem now id s
  | CallUpdateItemProgress id p v => UpdateItemProgress id p v s
  | CallCompleteDownloadItem id fp sz => CompleteDownloadItem now id fp sz s
  | CallFailDownloadItem id msg => FailDownloadItem now id msg s
  | CallSkipDownloadItem id fp => SkipDownloadItem now id fp s
  | CallCancelAllQueuedItems clock => CancelAllQueuedItems clock s
  | CallClearDownloadQueue => ClearDownloadQueue s
  | CallClearAllDownloads => ClearAllDownloads s
  | CallGetDownloadQueue => snd (GetDownloadQueue s)
  | CallResetSessionIfComplete => ResetSessionIfComplete s
  | CallSetDownloading b => SetDownloading b s
  | CallSetDownloadSpeed v => SetDownloadSpeed v s
  | CallSetDownloadProgress v => SetDownloadProgress v s
  end.

Definition run (calls : list (Z * Call)) (s : Store) : Store :=
  fold_left (λ s c, exec (fst c) (snd c) s) calls s.

(** The calls of a run, each with the store it was made in. *)
Fixpoint history (calls : list (Z * Call)) (s : Store) : list (Store * Call) :=
  match calls with
  | [] => []
  | c :: rest => (s, snd c) :: history rest (exec (fst c) (snd c) s)
  end.

(** The calls that act on queue records without removing any:
    enqueue, start, updateProgress, complete, fail, skip, cancelAllQueued. *)
Definition is_item_call (c : Call) : bool :=
  match c with
  | CallAddToQueue _ _ _ _ _ | CallStartDownloadItem _
  | CallUpdateItemProgress _ _ _ | CallCompleteDownloadItem _ _ _
  | CallFailDownloadItem _ _ | CallSkipDownloadItem _ _
  | CallCancelAllQueuedItems _ => true
  | _ => false
  end.

(** Status of the record at position [i] of the queue. *)
Definition status_at (i : nat) (s : Store) : option DownloadStatus :=
  Status <$> downloadQueue s !! i.

Definition terminal (st : DownloadStatus) : bool :=
  match st with
  | StatusCompleted | StatusFailed | StatusSkipped => true
  | _ => false
  end.

(** The life cycle the data model describes:
    Queued, then Downloading, then one terminal status, never backwards.
    [lifecycle_step a b] holds when a record may go from [a] to [b] in one
    call: it stays where it is, or moves strictly forward. *)
Definition stage (st : DownloadStatus) : nat :=
  match st with
  | StatusQueued => 0
  | StatusDownloading => 1
  | _ => 2
  end.
Definition lifecycle_step (a b : DownloadStatus) : Prop :=
  a = b ∨ (stage a < stage b)%nat.

(** The call is a session reset in the store it is made in: [clearAll], or a
    snapshot / [ResetSessionIfComplete] that finds nothing Queued or
    Downloading. *)
Definition is_reset (e : Store * Call) : bool :=
  match snd e with
  | CallClearAllDownloads => true
  | CallGetDownloadQueue | CallResetSessionIfComplete =>
      negb (hasActiveOrQueued (downloadQueue (fst e)))
  | _ => false
  end.

(** The part of a history that follows its last reset. *)
Definition since_last_reset (h : list (Store * Call)) : list (Store * Call) :=
  fold_left (λ acc e, if is_reset e then [] else acc ++ [e]) h [].

(** [finalSize] of every [complete] call of a history. *)
Definition complete_sizes (h : list (Store * Call)) : list float :=
  omap (λ e, match snd e with
             | CallCompleteDownloadItem _ _ sz => Some sz
             | _ => None
             end) h.

(** [finalSize] of the [complete] calls whose id names a record of the queue
    they are made on. *)
Definition effective_complete_sizes (h : list (Store * Call)) : list float :=
  omap (λ e, match snd e with
             | CallCompleteDownloadItem id _ sz =>
                 match find_by_id id (downloadQueue (fst e)) with
                 | Some _ => Some sz
                 | None => None
                 end
             | _ => None
             end) h.

(** The sum the program forms: starting from [acc], one [+=] per size. *)
Definition float_sum_from (acc : float) (l : list float) : float :=
  fold_left PrimFloat.add l acc.
Definition float_sum (l : list float) : float := float_sum_from 0 l.

(** What the body of the cancel loop makes of a record when the clock
    reads [now] in that iteration. *)
Definition cancelled (now : Z) (it : DownloadItem) : DownloadItem :=
  if bool_decide (Status it = StatusQueued) then
    mkItem (ID it) (TrackName it) (ArtistName it) (AlbumName it) (SpotifyID it)
           StatusSkipped (Progress it) (TotalSize it) (Speed it) (StartTime it)
           now "Cancelled" (FilePath it)
  else it.

(** The id an id-keyed mutating call looks up
    (start, updateProgress, complete, fail, skip). *)
Definition call_id (c : Call) : option string :=
  match c with
  | CallStartDownloadItem id | CallUpdateItemProgress id _ _
  | CallCompleteDownloadItem id _ _ | CallFailDownloadItem id _
  | CallSkipDownloadItem id _ => Some id
  | _ => None
  end.

(** The status such a call writes into the record it finds, if it writes one. *)
Definition call_status (c : Call) : option DownloadStatus :=
  match c with
  | CallStartDownloadItem _ => Some StatusDownloading
  | CallCompleteDownloadItem _ _ _ => Some StatusCompleted
  | CallFailDownloadItem _ _ => Some StatusFailed
  | CallSkipDownloadItem _ _ => Some StatusSkipped
  | _ => None
  end.

(** [i] is the first position of [q] holding a record with the given id. *)
Definition first_with_id (id : string) (q : list DownloadItem) (i : nat) : Prop :=
  (∃ it, q !! i = Some it ∧ ID it = id) ∧
  ∀ k y, q !! k = Some y → (k < i)%nat → ID y ≠ id.

(** No record of the queue carries the id. *)
Definition absent (id : string) (q : list DownloadItem) : Prop :=
  ∀ it, it ∈ q → ID it ≠ id.

(** The assignments an id-keyed call makes to the record it finds. *)
Definition mutate (now : Z) (c : Call) (it : DownloadItem) : DownloadItem :=
  match c with
  | CallStartDownloadItem _ =>
      set_Progress 0 (set_StartTime now (set_Status StatusDownloading it))
  | CallUpdateItemProgress _ progress speed =>
      set_Speed speed (set_Progress progress it)
  | CallCompleteDownloadItem _ filePath finalSize =>
      set_TotalSize finalSize (set_Progress finalSize
        (set_FilePath filePath (set_EndTime now (set_Status StatusCompleted it))))
  | CallFailDownloadItem _ errorMsg =>
      set_ErrorMessage errorMsg (set_EndTime now (set_Status StatusFailed it))
  | CallSkipDownloadItem _ filePath =>
      set_FilePath filePath (set_EndTime now (set_Status StatusSkipped it))
  | _ => it
  end.

(** What the wrapped sink returns when it is handed the buffers directly. *)
Fixpoint sink_results {W : Type} `{Writer W} (w : W) (ps : list (list byte))
  : list (Z * error) :=
  match ps with
  | [] => []
  | p :: rest =>
      let '(w', r) := io_Write w p in r :: sink_results w' rest
  end.

(** The sink after those writes. *)
Fixpoint sink_after {W : Type} `{Writer W} (w : W) (ps : list (list byte)) : W :=
  match ps with
  | [] => w
  | p :: rest => sink_after (fst (io_Write w p)) rest
  end.

(** Sum of the byte counts of a list of write results, as an integer. *)
Definition sum_counts (rs : list (Z * error)) : Z := foldr Z.add 0 (fst <$> rs).

(** Components of the result of [feed]. *)
Definition fed_sampler {W : Type}
    (r : ProgressWriter W * Store * list (Z * error) * list Publication)
  : ProgressWriter W := r.1.1.1.
Definition fed_store {W : Type}
    (r : ProgressWriter W * Store * list (Z * error) * list Publication)
  : Store := r.1.1.2.
Definition fed_results {W : Type}
    (r : ProgressWriter W * Store * list (Z * error) * list Publication)
  : list (Z * error) := r.1.2.
Definition fed_log {W : Type}
    (r : ProgressWriter W * Store * list (Z * error) * list Publication)
  : list Publication := r.2.

(** Number of throughput updates in a log of publications. *)
Definition speed_updates (log : list Publication) : nat :=
  length (List.filter is_PubSpeed log).

(** ** Vocabulary for the properties of snapshots, sessions and the sampler *)

(** Number of records of a queue that have a given status. *)
Definition count_of (st : DownloadStatus) (q : list DownloadItem) : Z :=
  len (List.filter (λ it, bool_decide (Status it = st)) q).

(** Calls that may close the session: clearAll, snapshot and
    [ResetSessionIfComplete]. *)
Definition resets_session (c : Call) : bool :=
  match c with
  | CallClearAllDownloads | CallGetDownloadQueue | CallResetSessionIfComplete => true
  | _ => false
  end.

(** Calls that may take records out of the queue: clearTerminal, clearAll. *)
Definition removes_records (c : Call) : bool :=
  match c with
  | CallClearDownloadQueue | CallClearAllDownloads => true
  | _ => false
  end.

Definition is_enqueue (c : Call) : bool :=
  match c with
  | CallAddToQueue _ _ _ _ _ => true
  | _ => false
  end.

(** Number of [AddToQueue] calls in a sequence. *)
Definition enqueues (calls : list (Z * Call)) : Z :=
  len (List.filter (λ c, is_enqueue (snd c)) calls).

(** The record a call of [AddToQueue] appends. *)
Definition new_item (id trackName artistName albumName spotifyID : string)
  : DownloadItem :=
  mkItem id trackName artistName albumName spotifyID StatusQueued 0 0 0 0 0 "" "".

(** [b] is [a] up to the fields [Progress] and [Speed]. *)
Definition same_but_progress (a b : DownloadItem) : Prop :=
  b = set_Speed (Speed b) (set_Progress (Progress b) a).

(** [b] has the descriptive fields of [a]: id, track, artist, album and
    source id. *)
Definition same_description (a b : DownloadItem) : Prop :=
  ID b = ID a ∧ TrackName b = TrackName a ∧ ArtistName b = ArtistName a
  ∧ AlbumName b = AlbumName a ∧ SpotifyID b = SpotifyID a.

(** [s'] is [s] up to the current progress, the current speed and the
    [Progress] and [Speed] of queue records: counter, total, session start,
    cursor and the rest of every record are the same. *)
Definition progress_frame (s s' : Store) : Prop :=
  activeDownloads s' = activeDownloads s
  ∧ totalDownloaded s' = totalDownloaded s
  ∧ sessionStartTime s' = sessionStartTime s
  ∧ currentItemID s' = currentItemID s
  ∧ Forall2 same_but_progress (downloadQueue s) (downloadQueue s').

(** ** The progress-bar widget ([frontend/src/components/DownloadProgress.tsx]) *)

Module Frontend.

(** JavaScript numbers are binary64 floats.  [Math.max] and [Math.min] on
    two numbers: NaN if either is NaN; otherwise the larger (smaller) one,
    with [+0] taken as larger than [-0]. *)
Definition is_neg_zero (x : float) : bool :=
  match PrimFloat.classify x with
  | NZero => true
  | _ => false
  end.

Definition Math_max (a b : float) : float :=
  if PrimFloat.is_nan a || PrimFloat.is_nan b then PrimFloat.nan
  else if (a <? b)%float then b
  else if (b <? a)%float then a
  else if is_neg_zero a then b else a.

Definition Math_min (a b : float) : float :=
  if PrimFloat.is_nan a || PrimFloat.is_nan b then PrimFloat.nan
  else if (b <? a)%float then b
  else if (a <? b)%float then a
  else if is_neg_zero b then b else a.

(** [const clampedProgress = Math.min(100, Math.max(0, progress))] *)
Definition clampedProgress (progress : float) : float :=
  Math_min 100 (Math_max 0 progress).

End Frontend.

(** * Properties *)

(** ** Basic facts about the embedding *)

Lemma find_by_id_Some id q i it :
  find_by_id id q = Some (i, it) ↔
  q !! i = Some it ∧ ID it = id ∧
  ∀ j y, q !! j = Some y → (j < i)%nat → ID y ≠ id.
Proof. exact (list_find_Some (λ it, ID it = id) q i it). Qed.

Lemma find_by_id_None id q :
  find_by_id id q = None ↔ Forall (λ it, ID it ≠ id) q.
Proof. exact (list_find_None (λ it, ID it = id) q). Qed.

Lemma find_by_id_absent id q :
  (∀ it, it ∈ q → ID it ≠ id) → find_by_id id q = None.
Proof.
  intros Habs. apply find_by_id_None, Forall_forall. exact Habs.
Qed.

Lemma find_by_id_lt id q i it :
  find_by_id id q = Some (i, it) → (i < length q)%nat.
Proof.
  intros Hf. apply find_by_id_Some in Hf as (Hi & _ & _).
  by eapply lookup_lt_Some.
Qed.

(** ** The loops of cancelAllQueued and clearTerminal *)

Lemma cancel_at_length clock q i : length (cancel_at clock q i) = length q.
Proof.
  unfold cancel_at. destruct (q !! i) as [it|]; [|done].
  case_bool_decide; [|done]. by rewrite length_insert.
Qed.

Lemma cancel_loop_length clock q l :
  length (fold_left (cancel_at clock) l q) = length q.
Proof.
  revert q. induction l as [|i l IH]; intros q; simpl; [done|].
  by rewrite IH, cancel_at_length.
Qed.

(** After the first [n] iterations the records below [n] are processed,
    each with the reading of its own iteration, and the others still as
    they were. *)
Lemma cancel_loop_lookup clock q n :
  (n ≤ length q)%nat →
  ∀ i, fold_left (cancel_at clock) (seq 0 n) q !! i =
       if decide (i < n)%nat then cancelled (clock i) <$> q !! i else q !! i.
Proof.
  induction n as [|n IH]; intros Hn i.
  - done.
  - rewrite seq_S, fold_left_app. simpl.
    specialize (IH ltac:(lia)).
    set (q' := fold_left (cancel_at clock) (seq 0 n) q) in *.
    assert (Hq'n : q' !! n = q !! n).
    { rewrite IH. case_decide; [lia|done]. }
    destruct (lookup_lt_is_Some_2 q n ltac:(lia)) as [it Hit].
    unfold cancel_at. rewrite Hq'n, Hit.
    destruct (decide (i = n)) as [->|Hne].
    + rewrite decide_True by lia. rewrite Hit. simpl.
      unfold cancelled. case_bool_decide.
      * rewrite list_lookup_insert_eq; [done|].
        subst q'. rewrite cancel_loop_length. lia.
      * by rewrite Hq'n, Hit.
    + assert (Hi : q' !! i = if decide (i < n)%nat
                             then cancelled (clock i) <$> q !! i else q !! i)
        by apply IH.
      case_bool_decide.
      * rewrite list_lookup_insert_ne by done. rewrite Hi.
        repeat case_decide; try lia; done.
      * rewrite Hi. repeat case_decide; try lia; done.
Qed.

Lemma CancelAllQueuedItems_queue clock s :
  downloadQueue (CancelAllQueuedItems clock s)
  = imap (λ i it, cancelled (clock i) it) (downloadQueue s).
Proof.
  unfold CancelAllQueuedItems. simpl.
  apply list_eq. intros i.
  rewrite cancel_loop_lookup by done.
  rewrite list_lookup_imap.
  case_decide as Hi; [done|].
  rewrite (lookup_ge_None_2 _ i) by lia. done.
Qed.

(** The loop of clearTerminal builds the filtered queue. *)
Lemma clear_loop q acc :
  fold_left (λ newQueue item, if pending item then newQueue ++ [item] else newQueue)
            q acc
  = acc ++ List.filter pending q.
Proof.
  revert acc. induction q as [|it q IH]; intros acc; simpl.
  - by rewrite app_nil_r.
  - rewrite IH. destruct (pending it); [|done].
    by rewrite <- app_assoc.
Qed.

Lemma pending_spec it :
  pending it = true ↔ Status it = StatusQueued ∨ Status it = StatusDownloading.
Proof.
  unfold pending. rewrite orb_true_iff, !bool_decide_eq_true. done.
Qed.

Lemma filter_sublist {A} (f : A → bool) (l : list A) : sublist (List.filter f l) l.
Proof.
  induction l as [|x l IH]; simpl; [constructor|].
  destruct (f x); by constructor.
Qed.

(** ** cancelAllQueued *)

(** C7. [CancelAllQueuedItems] keeps the queue's length and every aggregate;
    a record that was Queued becomes Skipped with [ErrorMessage =
    "Cancelled"] and [EndTime] the current time, that is, the reading the
    loop takes when it cancels that record ([clock i] for the record at
    index [i]), its other fields as before; a record with any other status,
    Downloading in particular, is the same record afterwards.  When the
    clock reads [now] throughout the call, every cancelled record has
    [EndTime = now]. *)
Theorem CancelAllQueuedItems_spec (clock : nat → Z) (s : Store) :
  let s' := CancelAllQueuedItems clock s in
  length (downloadQueue s') = length (downloadQueue s)
  ∧ (∀ i it, downloadQueue s !! i = Some it → Status it = StatusQueued →
       downloadQueue s' !! i =
       Some (mkItem (ID it) (TrackName it) (ArtistName it) (AlbumName it)
                    (SpotifyID it) StatusSkipped (Progress it) (TotalSize it)
                    (Speed it) (StartTime it) (clock i) "Cancelled" (FilePath it)))
  ∧ (∀ i it, downloadQueue s !! i = Some it → Status it ≠ StatusQueued →
       downloadQueue s' !! i = Some it)
  ∧ (∀ now, (∀ i, clock i = now) →
       ∀ i it, downloadQueue s !! i = Some it → Status it = StatusQueued →
         EndTime <$> downloadQueue s' !! i = Some now)
  ∧ s' = set_downloadQueue (downloadQueue s') s.
Proof.
  intros s'. subst s'. rewrite CancelAllQueuedItems_queue.
  split; [by rewrite length_imap|].
  split; [|split; [|split]].
  - intros i it Hi Hst. rewrite list_lookup_imap, Hi. simpl.
    unfold cancelled. by rewrite bool_decide_eq_true_2.
  - intros i it Hi Hst. rewrite list_lookup_imap, Hi. simpl.
    unfold cancelled. by rewrite bool_decide_eq_false_2.
  - intros now Hclock i it Hi Hst. rewrite list_lookup_imap, Hi. simpl.
    unfold cancelled. rewrite bool_decide_eq_true_2 by done. simpl.
    by rewrite Hclock.
  - unfold CancelAllQueuedItems. f_equal.
    exact (CancelAllQueuedItems_queue clock s).
Qed.

(** The scenario of the specification: one Queued and one Downloading
    record. *)
Example CancelAllQueuedItems_scenario :
  let s := run [(1, CallAddToQueue "a" "" "" "" "");
                (1, CallAddToQueue "b" "" "" "" "");
                (2, CallStartDownloadItem "b")] initial_store in
  let s' := CancelAllQueuedItems (λ _, 5) s in
  downloadQueue s' !! 1%nat = downloadQueue s !! 1%nat
  ∧ downloadQueue s' !! 0%nat =
    Some (mkItem "a" "" "" "" "" StatusSkipped 0 0 0 0 5 "Cancelled" "").
Proof. by vm_compute. Qed.

(** A call that runs across a second boundary: the clock reads 5 while the
    first record is cancelled and 6 from the second on; the Downloading
    record in between takes no reading. *)
Example CancelAllQueuedItems_across_a_second :
  let s := run [(1, CallAddToQueue "a" "" "" "" "");
                (1, CallAddToQueue "b" "" "" "" "");
                (1, CallAddToQueue "c" "" "" "" "");
                (2, CallStartDownloadItem "b")] initial_store in
  let s' := CancelAllQueuedItems (λ i, if (i <? 1)%nat then 5 else 6) s in
  Status <$> downloadQueue s' = [StatusSkipped; StatusDownloading; StatusSkipped]
  ∧ EndTime <$> downloadQueue s' = [5; 0; 6].
Proof. by vm_compute. Qed.

(** ** clearTerminal *)

(** C8. After [ClearDownloadQueue] the queue is the prior queue filtered on
    "status is Queued or Downloading": a subsequence of the prior queue, in
    the original order, holding exactly its pending records; the aggregates
    are untouched. *)
Theorem ClearDownloadQueue_spec (s : Store) :
  let s' := ClearDownloadQueue s in
  downloadQueue s' = List.filter pending (downloadQueue s)
  ∧ sublist (downloadQueue s') (downloadQueue s)
  ∧ (∀ it, it ∈ downloadQueue s' ↔
           it ∈ downloadQueue s ∧
           (Status it = StatusQueued ∨ Status it = StatusDownloading))
  ∧ s' = set_downloadQueue (downloadQueue s') s.
Proof.
  intros s'.
  assert (Hq : downloadQueue s' = List.filter pending (downloadQueue s)).
  { subst s'. unfold ClearDownloadQueue. simpl. by rewrite clear_loop. }
  split; [done|]. rewrite Hq. split; [apply filter_sublist|]. split.
  - intros it. rewrite !list_elem_of_In, filter_In, pending_spec. done.
  - subst s'. unfold ClearDownloadQueue. f_equal. apply clear_loop.
Qed.

Example ClearDownloadQueue_scenario :
  let s := run [(1, CallAddToQueue "a" "" "" "" "");
                (1, CallAddToQueue "b" "" "" "" "");
                (1, CallAddToQueue "c" "" "" "" "");
                (1, CallAddToQueue "d" "" "" "" "");
                (2, CallStartDownloadItem "a");
                (3, CallCompleteDownloadItem "a" "/a" 1);
                (4, CallStartDownloadItem "b");
                (5, CallFailDownloadItem "d" "boom")] initial_store in
  ID <$> downloadQueue s = ["a"; "b"; "c"; "d"]
  ∧ ID <$> downloadQueue (ClearDownloadQueue s) = ["b"; "c"].
Proof. by vm_compute. Qed.

(** ** start on an unknown id *)

(** C3 as stated fails: starting an id the queue does not hold moves the
    current-item cursor to that id. *)
Lemma StartDownloadItem_unknown_id_moves_cursor :
  let s := run [(1, CallAddToQueue "a" "" "" "" "");
                (2, CallStartDownloadItem "a")] initial_store in
  ID <$> downloadQueue s = ["a"]
  ∧ GetCurrentItemID s = "a"
  ∧ GetCurrentItemID (StartDownloadItem 3 "ghost" s) = "ghost".
Proof. by vm_compute. Qed.

(** C3, amended. For an id the queue does not hold, [StartDownloadItem]
    changes nothing but the current-item cursor, which it sets to that id:
    the queue and every other aggregate are as before. *)
Theorem StartDownloadItem_unknown_id (now : Z) (id : string) (s : Store) :
  absent id (downloadQueue s) →
  StartDownloadItem now id s = set_currentItemID id s.
Proof.
  intros Habs. unfold StartDownloadItem.
  by rewrite (find_by_id_absent _ _ Habs).
Qed.

Lemma StartDownloadItem_unknown_id_witness :
  absent "ghost" (downloadQueue (AddToQueue 1 "a" "" "" "" "" initial_store))
  ∧ StartDownloadItem 3 "ghost" (AddToQueue 1 "a" "" "" "" "" initial_store)
    = set_currentItemID "ghost" (AddToQueue 1 "a" "" "" "" "" initial_store).
Proof.
  assert (H : absent "ghost" (downloadQueue (AddToQueue 1 "a" "" "" "" "" initial_store))).
  { intros it Hit. apply list_elem_of_singleton in Hit. by subst it. }
  split; [exact H|].
  exact (StartDownloadItem_unknown_id 3 "ghost" _ H).
Defined.

(** ** Id-keyed calls and duplicate ids *)

Lemma first_with_id_find id q i :
  first_with_id id q i ↔ ∃ it, find_by_id id q = Some (i, it).
Proof.
  unfold first_with_id. split.
  - intros [(it & Hi & Hid) Hfirst]. exists it.
    apply find_by_id_Some. done.
  - intros (it & Hf). apply find_by_id_Some in Hf as (Hi & Hid & Hfirst).
    split; [by exists it|done].
Qed.

(** The queue after an id-keyed call: the record the scan stops at is
    overwritten in place, or nothing happens. *)
Lemma exec_keyed_queue now c id s :
  call_id c = Some id →
  downloadQueue (exec now c s) =
  match find_by_id id (downloadQueue s) with
  | Some (i, it) => <[i := mutate now c it]> (downloadQueue s)
  | None => downloadQueue s
  end.
Proof.
  intros Hc. destruct c; simplify_eq/=;
    [ unfold StartDownloadItem | unfold UpdateItemProgress
    | unfold CompleteDownloadItem | unfold FailDownloadItem
    | unfold SkipDownloadItem ];
    by destruct (find_by_id id (downloadQueue s)) as [[i it]|].
Qed.

Lemma mutate_ID now c it : ID (mutate now c it) = ID it.
Proof. by destruct c. Qed.

Lemma mutate_Status now c it :
  Status (mutate now c it) = default (Status it) (call_status c).
Proof. by destruct c. Qed.

(** C9. [AddToQueue] appends a Queued record whatever ids the queue already
    holds, so an id enqueued twice has two records; and an id-keyed call
    (start, updateProgress, complete, fail, skip) keeps the queue's length,
    makes its assignments to the first record carrying the id, and leaves the
    record at every other position, later records with the same id
    included, as it was. *)
Theorem duplicate_ids_first_match_only :
  (∀ now id trackName artistName albumName spotifyID s,
     downloadQueue (AddToQueue now id trackName artistName albumName spotifyID s)
     = downloadQueue s ++
       [mkItem id trackName artistName albumName spotifyID
               StatusQueued 0 0 0 0 0 "" ""])
  ∧ (∀ now c id s i,
       call_id c = Some id →
       first_with_id id (downloadQueue s) i →
       length (downloadQueue (exec now c s)) = length (downloadQueue s)
       ∧ downloadQueue (exec now c s) !! i = mutate now c <$> downloadQueue s !! i
       ∧ (∀ st, call_status c = Some st → status_at i (exec now c s) = Some st)
       ∧ (∀ j, j ≠ i →
            downloadQueue (exec now c s) !! j = downloadQueue s !! j)).
Proof.
  split.
  - intros. unfold AddToQueue. simpl. by case_match.
  - intros now c id s i Hc Hfirst.
    apply first_with_id_find in Hfirst as [it Hf].
    rewrite (exec_keyed_queue _ _ _ _ Hc) at 1.
    unfold status_at.
    rewrite !(exec_keyed_queue _ _ _ _ Hc), Hf.
    pose proof Hf as Hf'. apply find_by_id_Some in Hf' as (Hi & _ & _).
    split; [by rewrite length_insert|]. split; [|split].
    + rewrite Hi. simpl. apply list_lookup_insert_eq. by eapply find_by_id_lt.
    + intros st Hst.
      rewrite list_lookup_insert_eq by (by eapply find_by_id_lt).
      simpl. by rewrite mutate_Status, Hst.
    + intros j Hj. by rewrite list_lookup_insert_ne.
Qed.

(** An id enqueued twice: [complete] finalises the first record only. *)
Example duplicate_ids_scenario :
  let s := run [(1, CallAddToQueue "a" "first" "" "" "");
                (2, CallAddToQueue "a" "second" "" "" "");
                (3, CallCompleteDownloadItem "a" "/a" 4)] initial_store in
  (TrackName <$> downloadQueue s) = ["first"; "second"]
  ∧ (Status <$> downloadQueue s) = [StatusCompleted; StatusQueued].
Proof. by vm_compute. Qed.

(** ** Active-count tracker *)

Lemma wrap_in_range z : Int64.in_range z → Int64.wrap z = z.
Proof.
  unfold Int64.in_range, Int64.min_int, Int64.max_int, Int64.wrap. intros Hz.
  rewrite Z.mod_small; lia.
Qed.

Lemma wrap_wrap_add a b : Int64.wrap (Int64.wrap a + b) = Int64.wrap (a + b).
Proof.
  unfold Int64.wrap. f_equal.
  replace (((a + 2 ^ 63) mod 2 ^ 64 - 2 ^ 63) + b + 2 ^ 63)
    with ((a + 2 ^ 63) mod 2 ^ 64 + b) by lia.
  rewrite Zplus_mod_idemp_l. f_equal. lia.
Qed.

(** Only [SetDownloading] touches the counter. *)
Lemma exec_activeDownloads now c s :
  activeDownloads (exec now c s) =
  match c with
  | CallSetDownloading b => activeDownloads (SetDownloading b s)
  | _ => activeDownloads s
  end.
Proof.
  destruct c; simpl; try done;
    unfold AddToQueue, StartDownloadItem, UpdateItemProgress,
      CompleteDownloadItem, FailDownloadItem, SkipDownloadItem,
      GetDownloadQueue, ResetSessionIfComplete;
    repeat case_match; done.
Qed.

(** One call moves a non-negative counter by at most one and keeps it
    non-negative, short of overflow. *)
Lemma SetDownloading_step b s :
  0 ≤ activeDownloads s < Int64.max_int →
  0 ≤ activeDownloads (SetDownloading b s) ≤ activeDownloads s + 1.
Proof.
  unfold Int64.max_int. intros Hs. unfold SetDownloading.
  destruct b; simpl.
  - unfold Int64.add. rewrite wrap_in_range; [lia|].
    unfold Int64.in_range, Int64.min_int, Int64.max_int. lia.
  - unfold Int64.add. rewrite wrap_in_range
      by (unfold Int64.in_range, Int64.min_int, Int64.max_int; lia).
    destruct (Z.leb_spec (activeDownloads s + -1) 0); simpl; lia.
Qed.

Lemma run_activeDownloads calls s :
  0 ≤ activeDownloads s →
  activeDownloads s + len calls ≤ Int64.max_int →
  0 ≤ activeDownloads (run calls s) ≤ activeDownloads s + len calls.
Proof.
  unfold len, run. revert s.
  induction calls as [|[now c] calls IH]; intros s H0 Hmax; simpl in *; [lia|].
  assert (Hstep : 0 ≤ activeDownloads (exec now c s) ≤ activeDownloads s + 1).
  { rewrite exec_activeDownloads. destruct c; try lia.
    apply SetDownloading_step. lia. }
  specialize (IH (exec now c s)). lia.
Qed.

(** C5. Starting from a non-negative count and short of overflowing the
    64-bit counter, after any sequence of calls the active-download count is
    at least 0; and when a decrement made then brings the count to 0 or
    below, the count is stored as 0 and a read that follows returns 0 for
    both the current progress and the current speed. *)
Theorem activeDownloads_floor (calls : list (Z * Call)) (s0 : Store) :
  0 ≤ activeDownloads s0 →
  activeDownloads s0 + len calls ≤ Int64.max_int →
  let s := run calls s0 in
  0 ≤ activeDownloads s
  ∧ 0 ≤ activeDownloads (SetDownloading false s)
  ∧ (Int64.add (activeDownloads s) (-1) ≤ 0 →
     activeDownloads (SetDownloading false s) = 0
     ∧ GetDownloadProgress (SetDownloading false s) = mkProgressInfo false 0 0).
Proof.
  intros H0 Hmax s.
  pose proof (run_activeDownloads calls s0 H0 Hmax) as Hs. fold s in Hs.
  split; [lia|]. unfold SetDownloading. simpl.
  destruct (Z.leb_spec (Int64.add (activeDownloads s) (-1)) 0) as [Hle|Hgt].
  - split; [done|]. done.
  - split; [simpl; lia|]. lia.
Qed.

Lemma activeDownloads_floor_witness :
  let calls := [(1, CallSetDownloading true); (2, CallSetDownloading true);
                (3, CallSetDownloadProgress 1.5); (3, CallSetDownloadSpeed 2);
                (4, CallSetDownloading false); (5, CallSetDownloading false);
                (6, CallSetDownloading false); (7, CallSetDownloading true)] in
  let s := run calls initial_store in
  (0 ≤ activeDownloads initial_store
   ∧ activeDownloads initial_store + len calls ≤ Int64.max_int)
  ∧ 0 ≤ activeDownloads s
  ∧ 0 ≤ activeDownloads (SetDownloading false s)
  ∧ (Int64.add (activeDownloads s) (-1) ≤ 0 →
     activeDownloads (SetDownloading false s) = 0
     ∧ GetDownloadProgress (SetDownloading false s) = mkProgressInfo false 0 0).
Proof.
  intros calls s.
  assert (H0 : 0 ≤ activeDownloads initial_store) by (vm_compute; discriminate).
  assert (Hmax : activeDownloads initial_store + len calls ≤ Int64.max_int)
    by (vm_compute; discriminate).
  exact (conj (conj H0 Hmax) (activeDownloads_floor calls initial_store H0 Hmax)).
Defined.

(** A decrement below zero is clamped, and the aggregates it resets. *)
Example SetDownloading_clamp_scenario :
  let s := run [(1, CallSetDownloading true);
                (2, CallSetDownloadProgress 1.5); (2, CallSetDownloadSpeed 2);
                (3, CallSetDownloading false); (4, CallSetDownloading false)]
               initial_store in
  activeDownloads s = 0 ∧ GetDownloadProgress s = mkProgressInfo false 0 0.
Proof. by vm_compute. Qed.

(** ** Progress sampler: transparency and the running total *)

Section Sampler.

Context {W : Type} `{Writer W}.

(** The sampler's part of a call of [Write], given what the sink
    answered. *)
Lemma Write_sink now p (pw : ProgressWriter W) s :
  writer (out_pw (Write now p pw s)) = fst (io_Write (writer pw) p)
  ∧ (out_n (Write now p pw s), out_err (Write now p pw s))
    = snd (io_Write (writer pw) p)
  ∧ total (out_pw (Write now p pw s))
    = Int64.add (total pw) (fst (snd (io_Write (writer pw) p))).
Proof.
  unfold Write. destruct (io_Write (writer pw) p) as [w' [n err]].
  repeat case_match; simplify_eq/=; done.
Qed.

(** The log of a call is faithful: the store after the call is the store
    before it with the logged setters applied in order. *)
Lemma Write_store_is_published now p (pw : ProgressWriter W) s :
  out_store (Write now p pw s)
  = fold_left (λ s e, publish e s) (out_published (Write now p pw s)) s.
Proof.
  unfold Write. destruct (io_Write (writer pw) p) as [w' [n err]].
  repeat case_match; simplify_eq/=; done.
Qed.

Lemma feed_cons now p calls (pw : ProgressWriter W) s :
  feed ((now, p) :: calls) pw s =
  let o := Write now p pw s in
  let r := feed calls (out_pw o) (out_store o) in
  (fed_sampler r, fed_store r, (out_n o, out_err o) :: fed_results r,
   out_published o ++ fed_log r).
Proof.
  simpl. by destruct (feed calls _ _) as [[[pw' s'] results] log].
Qed.

Lemma feed_results calls (pw : ProgressWriter W) s :
  fed_results (feed calls pw s) = sink_results (writer pw) (snd <$> calls)
  ∧ writer (fed_sampler (feed calls pw s)) = sink_after (writer pw) (snd <$> calls).
Proof.
  revert pw s. induction calls as [|[now p] calls IH]; intros pw s; [done|].
  rewrite feed_cons. cbn zeta. unfold fed_results, fed_sampler in *. simpl.
  destruct (Write_sink now p pw s) as (Hw & Hr & _).
  destruct (IH (out_pw (Write now p pw s)) (out_store (Write now p pw s)))
    as [IHr IHw].
  rewrite IHr, IHw, Hw, Hr.
  by destruct (io_Write (writer pw) p) as [w' r].
Qed.

Lemma feed_total calls (pw : ProgressWriter W) s :
  Int64.wrap (GetTotal (fed_sampler (feed calls pw s)))
  = Int64.wrap (GetTotal pw + sum_counts (fed_results (feed calls pw s))).
Proof.
  unfold GetTotal.
  revert pw s. induction calls as [|[now p] calls IH]; intros pw s.
  - unfold sum_counts. simpl. by rewrite Z.add_0_r.
  - rewrite feed_cons. cbn zeta. unfold fed_results, fed_sampler in *. simpl.
    rewrite IH.
    destruct (Write_sink now p pw s) as (_ & Hr & Ht).
    rewrite Ht. unfold Int64.add. rewrite wrap_wrap_add.
    f_equal. unfold sum_counts. simpl.
    replace (out_n (Write now p pw s)) with (fst (snd (io_Write (writer pw) p)))
      by (by rewrite <- Hr).
    symmetry. apply Z.add_assoc.
Qed.

Lemma wrap_range z : Int64.in_range (Int64.wrap z).
Proof.
  unfold Int64.in_range, Int64.min_int, Int64.max_int, Int64.wrap.
  pose proof (Z.mod_pos_bound (z + 2 ^ 63) (2 ^ 64) ltac:(lia)). lia.
Qed.

Lemma feed_total_range calls (pw : ProgressWriter W) s :
  Int64.in_range (total pw) →
  Int64.in_range (total (fed_sampler (feed calls pw s))).
Proof.
  revert pw s. induction calls as [|[now p] calls IH]; intros pw s Hpw; [done|].
  rewrite feed_cons. cbn zeta. unfold fed_sampler in *. simpl.
  apply IH. destruct (Write_sink now p pw s) as (_ & _ & Ht).
  rewrite Ht. apply wrap_range.
Qed.

End Sampler.

(** C6. [Write] hands the buffer to the wrapped sink once and as it is,
    and returns the byte count and the error the sink returned: the sink
    after the call, the count and the error are those of the sink's own
    [Write] on that buffer.  The sampler adds no failure of its own. *)
Theorem Write_is_transparent {W : Type} `{Writer W}
    (now : Z) (p : list byte) (pw : ProgressWriter W) (s : Store) :
  let o := Write now p pw s in
  (writer (out_pw o), (out_n o, out_err o)) = io_Write (writer pw) p.
Proof.
  intros o. subst o.
  destruct (Write_sink now p pw s) as (Hw & Hr & _).
  rewrite Hw, Hr. by destruct (io_Write (writer pw) p) as [w' r].
Qed.

(** A sink that fails half-way: the sampler reports the same short count
    and the same error. *)
Example Write_forwards_failure :
  let pw := NewProgressWriter 0 (mkLimited [] 2) in
  let o := Write 10 [x01; x02; x03] pw initial_store in
  (out_n o, out_err o) = (2, Some "short write")
  ∧ writer (out_pw o) = mkLimited [x01; x02] 0.
Proof. by vm_compute. Qed.

(** C10. Each [Write] adds to the running total the count the sink
    returned, whatever the buffer's length and the error; so for a sampler
    fed any sequence of buffers since its construction, [GetTotal] is the
    sum of the counts the sink returned, failed writes included (as an
    [int64]: the sum reduced modulo 2^64, which is the sum itself while it
    fits). *)
Theorem GetTotal_sums_sink_counts {W : Type} `{Writer W}
    (now0 : Z) (w : W) (id : string) (calls : list (Z * list byte)) (s : Store) :
  let r := feed calls (NewProgressWriterWithID now0 w id) s in
  let counts := sum_counts (sink_results w (snd <$> calls)) in
  fed_results r = sink_results w (snd <$> calls)
  ∧ GetTotal (fed_sampler r) = Int64.wrap counts
  ∧ (Int64.in_range counts → GetTotal (fed_sampler r) = counts)
  ∧ (∀ now p (pw : ProgressWriter W) s1,
       GetTotal (out_pw (Write now p pw s1))
       = Int64.add (GetTotal pw) (fst (snd (io_Write (writer pw) p)))).
Proof.
  intros r counts.
  set (pw0 := NewProgressWriterWithID now0 w id) in *.
  assert (Hres : fed_results r = sink_results w (snd <$> calls)).
  { subst r. by destruct (feed_results calls pw0 s) as [-> _]. }
  assert (Htot : GetTotal (fed_sampler r) = Int64.wrap counts).
  { subst r counts. rewrite <- Hres.
    pose proof (feed_total calls pw0 s) as Ht.
    rewrite wrap_in_range in Ht; [exact Ht|].
    apply feed_total_range. vm_compute. split; discriminate. }
  split; [done|]. split; [done|]. split.
  - intros Hrange. by rewrite Htot, wrap_in_range.
  - intros now p pw s1. unfold GetTotal.
    by destruct (Write_sink now p pw s1) as (_ & _ & ->).
Qed.

(** A sink with room for five bytes, fed three buffers: the second is cut
    short, the third is refused; the total is what the sink took. *)
Example GetTotal_short_writes :
  let calls := [(1, [x01; x02; x03]); (2, [x04; x05; x06; x07]); (3, [x08])] in
  let r := feed calls (NewProgressWriter 0 (mkLimited [] 5)) initial_store in
  fed_results r = [(3, None); (2, Some "short write"); (0, Some "short write")]
  ∧ GetTotal (fed_sampler r) = 5
  ∧ len (concat (snd <$> calls)) = 8.
Proof. by vm_compute. Qed.

(** ** Status transitions *)

(** C1 as stated fails: the store accepts a start, and a second
    finalisation, on a record that is already Completed. *)
Lemma terminal_record_is_overwritten :
  let calls := [(1, CallAddToQueue "a" "Song" "Artist" "Album" "sid");
                (2, CallStartDownloadItem "a");
                (3, CallCompleteDownloadItem "a" "/out/a.mp3" 3)] in
  let s := run calls initial_store in
  forallb (λ c, is_item_call (snd c)) calls = true
  ∧ status_at 0 s = Some StatusCompleted
  ∧ terminal StatusCompleted = true
  ∧ status_at 0 (exec 4 (CallStartDownloadItem "a") s) = Some StatusDownloading
  ∧ status_at 0 (exec 4 (CallFailDownloadItem "a" "late") s) = Some StatusFailed
  ∧ ¬ lifecycle_step StatusCompleted StatusDownloading
  ∧ ¬ lifecycle_step StatusCompleted StatusFailed.
Proof.
  repeat split; try (by vm_compute);
    unfold lifecycle_step; simpl; intros [?|?]; (discriminate || lia).
Qed.

(** What one item call does to the record at a position: it stays at that
    position with its id, and its status is kept, or is the status an
    id-keyed call writes into the first record with its id, or goes from
    Queued to Skipped under cancelAllQueued. *)
Lemma exec_item_call_lookup now c s i it :
  is_item_call c = true →
  downloadQueue s !! i = Some it →
  ∃ it', downloadQueue (exec now c s) !! i = Some it'
         ∧ ID it' = ID it
         ∧ (Status it' = Status it
            ∨ (∃ id, call_id c = Some id
                     ∧ first_with_id id (downloadQueue s) i
                     ∧ call_status c = Some (Status it'))
            ∨ ((∃ clock, c = CallCancelAllQueuedItems clock)
               ∧ Status it = StatusQueued ∧ Status it' = StatusSkipped)).
Proof.
  intros Hc Hi.
  destruct (call_id c) as [id|] eqn:Hid.
  - (* start, updateProgress, complete, fail, skip *)
    rewrite (exec_keyed_queue now c id s Hid).
    destruct (find_by_id id (downloadQueue s)) as [[i0 it0]|] eqn:Hf;
      [|exists it; auto].
    destruct (decide (i = i0)) as [->|Hne].
    + pose proof Hf as Hf'.
      apply find_by_id_Some in Hf' as (Hi0 & _ & _).
      assert (it0 = it) as -> by congruence.
      exists (mutate now c it).
      rewrite list_lookup_insert_eq by (by eapply lookup_lt_Some).
      split; [done|]. split; [apply mutate_ID|].
      rewrite mutate_Status.
      destruct (call_status c) as [st|] eqn:Hst; simpl; [|by left].
      right. left. exists id. split; [done|]. split; [|done].
      apply first_with_id_find. by exists it.
    + exists it. rewrite list_lookup_insert_ne by done. auto.
  - destruct c; try done.
    + (* enqueue *)
      exists it. split; [|auto].
      cbn [exec]. unfold AddToQueue. case_match; simpl; by apply lookup_app_l_Some.
    + (* cancelAllQueued *)
      exists (cancelled (clock i) it). cbn [exec].
      rewrite (CancelAllQueuedItems_queue clock s), list_lookup_imap, Hi.
      split; [done|]. unfold cancelled.
      case_bool_decide; simpl; [|by auto].
      split; [done|]. right; right. split; [by exists clock|done].
Qed.

Lemma call_status_not_Queued c : call_status c ≠ Some StatusQueued.
Proof. by destruct c. Qed.

Lemma run_cons c calls s : run (c :: calls) s = run calls (exec (fst c) (snd c) s).
Proof. done. Qed.

Lemma run_item_calls_lookup calls s i it :
  Forall (λ c, is_item_call (snd c) = true) calls →
  downloadQueue s !! i = Some it →
  ∃ it', downloadQueue (run calls s) !! i = Some it'
         ∧ ID it' = ID it
         ∧ (Status it ≠ StatusQueued → Status it' ≠ StatusQueued).
Proof.
  intros Hcalls. revert s it.
  induction Hcalls as [|[now c] calls Hc _ IH]; intros s it Hi.
  - exists it. auto.
  - rewrite run_cons. simpl in *.
    destruct (exec_item_call_lookup now c s i it Hc Hi)
      as (it1 & Hi1 & Hid1 & Hst1).
    destruct (IH _ _ Hi1) as (it' & Hi' & Hid' & Hst').
    exists it'. split; [done|]. split; [congruence|].
    intros Hnq. apply Hst'.
    destruct Hst1 as [Heq|[(id & _ & _ & Hcs)|(_ & Hq & _)]].
    + congruence.
    + intros Hq. rewrite Hq in Hcs. by apply call_status_not_Queued in Hcs.
    + done.
Qed.

(** C1, amended. Over any sequence of enqueue / start / updateProgress /
    complete / fail / skip / cancelAllQueued calls a record keeps its
    position and id, and once its status is not Queued it is never Queued
    again (so a terminal record never returns to Queued).  One call changes
    the status of a record only in these ways: an id-keyed call writes its
    own status (Downloading for start, Completed, Failed, Skipped) into the
    first record with its id, whatever status that record had; and
    cancelAllQueued turns Queued into Skipped.  No other order of statuses
    is enforced. *)
Theorem status_transitions :
  (∀ calls s i it,
     Forall (λ c, is_item_call (snd c) = true) calls →
     downloadQueue s !! i = Some it →
     ∃ it', downloadQueue (run calls s) !! i = Some it'
            ∧ ID it' = ID it
            ∧ (Status it ≠ StatusQueued → Status it' ≠ StatusQueued))
  ∧ (∀ now c s i a,
       is_item_call c = true →
       status_at i s = Some a →
       ∃ b, status_at i (exec now c s) = Some b
            ∧ (a = b
               ∨ (∃ id, call_id c = Some id
                        ∧ first_with_id id (downloadQueue s) i
                        ∧ call_status c = Some b)
               ∨ ((∃ clock, c = CallCancelAllQueuedItems clock)
                  ∧ a = StatusQueued ∧ b = StatusSkipped))).
Proof.
  split; [exact run_item_calls_lookup|].
  intros now c s i a Hc Ha. unfold status_at in *.
  destruct (downloadQueue s !! i) as [it|] eqn:Hi; simplify_eq/=.
  destruct (exec_item_call_lookup now c s i it Hc Hi) as (it' & Hi' & _ & Hst).
  exists (Status it'). rewrite Hi'. split; [done|].
  destruct Hst as [Heq|[Hkey|Hcancel]]; auto.
Qed.

(** The life cycle as callers are meant to drive it. *)
Example lifecycle_scenario :
  let s := run [(1, CallAddToQueue "a" "Song" "Artist" "Album" "sid");
                (2, CallStartDownloadItem "a");
                (3, CallUpdateItemProgress "a" 2.5 1);
                (4, CallCompleteDownloadItem "a" "/out/a.mp3" 3)] initial_store in
  downloadQueue s =
    [mkItem "a" "Song" "Artist" "Album" "sid" StatusCompleted 3 3 1 2 4 "" "/out/a.mp3"]
  ∧ totalDownloaded s = 3%float.
Proof. by vm_compute. Qed.

(** ** Session accounting *)

(** C4 as stated fails: a [complete] call whose id names no record adds
    nothing.  After a reset, the worker of a cancelled and cleared download
    reports completion; the [complete] calls since the reset sum to 5, and
    [totalDownloaded] is 0. *)
Lemma complete_on_unknown_id_is_not_counted :
  let calls := [(0, CallClearAllDownloads);
                (1, CallAddToQueue "a" "" "" "" "");
                (1, CallAddToQueue "b" "" "" "" "");
                (2, CallStartDownloadItem "a");
                (3, CallCancelAllQueuedItems (λ _, 3));
                (4, CallClearDownloadQueue);
                (5, CallCompleteDownloadItem "b" "/out/b.mp3" 5)] in
  let h := since_last_reset (history calls initial_store) in
  snd <$> h = snd <$> drop 1 calls
  ∧ complete_sizes h = [5%float]
  ∧ float_sum (complete_sizes h) = 5%float
  ∧ ID <$> downloadQueue (run (take 6 calls) initial_store) = ["a"]
  ∧ totalDownloaded (run calls initial_store) = 0%float.
Proof. by vm_compute. Qed.

(** [totalDownloaded] after one call. *)
Lemma exec_totalDownloaded now c s :
  totalDownloaded (exec now c s) =
  if is_reset (s, c) then 0%float
  else match c with
       | CallCompleteDownloadItem id _ finalSize =>
           match find_by_id id (downloadQueue s) with
           | Some _ => (totalDownloaded s + finalSize)%float
           | None => totalDownloaded s
           end
       | _ => totalDownloaded s
       end.
Proof.
  unfold is_reset.
  destruct c; simpl; try done;
    unfold AddToQueue, StartDownloadItem, UpdateItemProgress,
      CompleteDownloadItem, FailDownloadItem, SkipDownloadItem,
      GetDownloadQueue, ResetSessionIfComplete, SetDownloading;
    repeat case_match; simplify_eq/=; done.
Qed.

Lemma run_snoc calls c s :
  run (calls ++ [c]) s = exec (fst c) (snd c) (run calls s).
Proof. unfold run. by rewrite fold_left_app. Qed.

Lemma history_snoc calls c s :
  history (calls ++ [c]) s = history calls s ++ [(run calls s, snd c)].
Proof.
  revert s. induction calls as [|c0 calls IH]; intros s; simpl; [done|].
  by rewrite IH.
Qed.

Lemma since_last_reset_snoc h e :
  since_last_reset (h ++ [e]) =
  if is_reset e then [] else since_last_reset h ++ [e].
Proof. unfold since_last_reset. by rewrite fold_left_app. Qed.

Lemma float_sum_from_snoc acc l x :
  float_sum_from acc (l ++ [x]) = (float_sum_from acc l + x)%float.
Proof. unfold float_sum_from. by rewrite fold_left_app. Qed.

(** The invariant behind session accounting, from any starting store:
    [totalDownloaded] is its starting value, or 0 once a reset has
    happened, plus the sizes of the effective [complete] calls since. *)
Lemma run_totalDownloaded calls s0 :
  totalDownloaded (run calls s0) =
  float_sum_from
    (if existsb is_reset (history calls s0) then 0%float else totalDownloaded s0)
    (effective_complete_sizes (since_last_reset (history calls s0))).
Proof.
  induction calls as [|[now c] calls IH] using rev_ind; [done|].
  rewrite run_snoc, history_snoc, since_last_reset_snoc, existsb_app.
  rewrite exec_totalDownloaded. simpl.
  set (s := run calls s0) in *.
  destruct (is_reset (s, c)) eqn:Hreset.
  - by rewrite orb_true_r.
  - rewrite !orb_false_r. unfold effective_complete_sizes in *.
    rewrite omap_app. simpl.
    destruct c; simpl; rewrite ?app_nil_r; try exact IH.
    destruct (find_by_id id (downloadQueue s)); simpl.
    + by rewrite float_sum_from_snoc, IH.
    + by rewrite app_nil_r.
Qed.

(** C4, amended. [totalDownloaded] is the sum, in call order, of the
    [finalSize] of the [complete] calls made since the last session reset
    whose id named a record of the queue at that moment; a [complete] on
    an id the queue does not hold adds nothing.  [fail] and [skip] leave
    [totalDownloaded] as it is. *)
Theorem totalDownloaded_is_session_sum :
  (∀ calls,
     totalDownloaded (run calls initial_store) =
     float_sum (effective_complete_sizes
                  (since_last_reset (history calls initial_store))))
  ∧ (∀ calls s0,
       existsb is_reset (history calls s0) = true →
       totalDownloaded (run calls s0) =
       float_sum (effective_complete_sizes
                    (since_last_reset (history calls s0))))
  ∧ (∀ now id errorMsg s,
       totalDownloaded (FailDownloadItem now id errorMsg s) = totalDownloaded s)
  ∧ (∀ now id filePath s,
       totalDownloaded (SkipDownloadItem now id filePath s) = totalDownloaded s).
Proof.
  split; [|split; [|split]].
  - intros calls. rewrite run_totalDownloaded. simpl.
    by destruct (existsb is_reset (history calls initial_store)).
  - intros calls s0 Hreset. by rewrite run_totalDownloaded, Hreset.
  - intros now id msg s.
    exact (exec_totalDownloaded now (CallFailDownloadItem id msg) s).
  - intros now id fp s.
    exact (exec_totalDownloaded now (CallSkipDownloadItem id fp) s).
Qed.

(** Two completed downloads, a snapshot that closes the session, then a
    third download in the next session. *)
Example session_sum_scenario :
  let calls := [(1, CallAddToQueue "a" "" "" "" "");
                (1, CallAddToQueue "b" "" "" "" "");
                (2, CallStartDownloadItem "a");
                (3, CallCompleteDownloadItem "a" "/a" 3);
                (4, CallGetDownloadQueue);
                (5, CallFailDownloadItem "b" "boom")] in
  let more := [(6, CallGetDownloadQueue);
               (7, CallAddToQueue "c" "" "" "" "");
               (8, CallCompleteDownloadItem "c" "/c" 2.5)] in
  totalDownloaded (run calls initial_store) = 3%float
  ∧ totalDownloaded (run (calls ++ [(6, CallGetDownloadQueue)]) initial_store)
    = 0%float
  ∧ totalDownloaded (run (calls ++ more) initial_store) = 2.5%float.
Proof. by vm_compute. Qed.

(** ** Progress sampler: the sampling cadence *)

Lemma speed_updates_app a b :
  speed_updates (a ++ b) = (speed_updates a + speed_updates b)%nat.
Proof. unfold speed_updates. by rewrite List.filter_app, length_app. Qed.

Lemma chunks_fuel_nil fuel k : chunks_fuel fuel k [] = [].
Proof. by destruct fuel. Qed.

Lemma chunks_fuel_step fuel k data :
  (length data ≤ fuel)%nat → data ≠ [] →
  chunks_fuel fuel k data = take k data :: chunks_fuel (pred fuel) k (drop k data).
Proof.
  intros Hfuel Hdata. destruct fuel as [|fuel].
  - destruct data; [done|simpl in Hfuel; lia].
  - simpl. by destruct data.
Qed.

Lemma len_nonempty {A} (l : list A) : 0 < len l → l ≠ [].
Proof. unfold len. destruct l; simpl; [lia|done]. Qed.

(** The buffers a 1,048,576-byte stream is cut into by a 300 KiB copy
    buffer: three full buffers and a rest of 126,976 bytes. *)
Lemma chunks_1MiB_by_300KiB (data : list byte) :
  len data = 1048576 →
  ∃ p1 p2 p3 p4,
    chunks (Z.to_nat 307200) data = [p1; p2; p3; p4]
    ∧ len p1 = 307200 ∧ len p2 = 307200 ∧ len p3 = 307200 ∧ len p4 = 126976.
Proof.
  unfold len, chunks. intros Hdata.
  set (k := Z.to_nat 307200).
  assert (Hk : Z.of_nat k = 307200) by (subst k; lia).
  clearbody k.
  set (d1 := drop k data). set (d2 := drop k d1). set (d3 := drop k d2).
  set (d4 := drop k d3).
  assert (H1 : Z.of_nat (length d1) = 741376) by (subst d1; rewrite length_drop; lia).
  assert (H2 : Z.of_nat (length d2) = 434176) by (subst d2; rewrite length_drop; lia).
  assert (H3 : Z.of_nat (length d3) = 126976) by (subst d3; rewrite length_drop; lia).
  assert (H4 : length d4 = 0%nat) by (subst d4; rewrite length_drop; lia).
  exists (take k data), (take k d1), (take k d2), (take k d3).
  split.
  - rewrite (chunks_fuel_step _ k data) by (try apply len_nonempty; unfold len; lia).
    fold d1.
    rewrite (chunks_fuel_step _ k d1) by (try apply len_nonempty; unfold len; lia).
    fold d2.
    rewrite (chunks_fuel_step _ k d2) by (try apply len_nonempty; unfold len; lia).
    fold d3.
    rewrite (chunks_fuel_step _ k d3) by (try apply len_nonempty; unfold len; lia).
    fold d4.
    apply length_zero_iff_nil in H4. rewrite H4. by rewrite chunks_fuel_nil.
  - rewrite !length_take. lia.
Qed.

Section Cadence.

Context {W : Type} `{Writer W}.

(** A call of [Write] that crosses the threshold with a positive elapsed
    time publishes one throughput update and restarts the sampling window. *)
Lemma Write_sampled now p (pw : ProgressWriter W) s n err :
  snd (io_Write (writer pw) p) = (n, err) →
  sample_threshold ≤ Int64.sub (Int64.add (total pw) n) (lastPrinted pw) →
  (0 <? timeDiff_of now (lastTime pw))%float = true →
  let o := Write now p pw s in
  speed_updates (out_published o) = 1%nat
  ∧ total (out_pw o) = Int64.add (total pw) n
  ∧ lastPrinted (out_pw o) = Int64.add (total pw) n
  ∧ lastTime (out_pw o) = now.
Proof.
  intros Hsink Hthr Htime. unfold Write.
  destruct (io_Write (writer pw) p) as [w' [n' err']]. simpl in Hsink.
  simplify_eq.
  apply Z.leb_le in Hthr. rewrite Hthr, Htime.
  by case_bool_decide.
Qed.

(** A call that stays below the threshold publishes nothing and leaves the
    window where it was. *)
Lemma Write_not_sampled now p (pw : ProgressWriter W) s n err :
  snd (io_Write (writer pw) p) = (n, err) →
  Int64.sub (Int64.add (total pw) n) (lastPrinted pw) < sample_threshold →
  let o := Write now p pw s in
  out_published o = []
  ∧ total (out_pw o) = Int64.add (total pw) n
  ∧ lastPrinted (out_pw o) = lastPrinted pw
  ∧ lastTime (out_pw o) = lastTime pw.
Proof.
  intros Hsink Hthr. unfold Write.
  destruct (io_Write (writer pw) p) as [w' [n' err']]. simpl in Hsink.
  simplify_eq.
  apply Z.leb_gt in Hthr. by rewrite Hthr.
Qed.

(** The scenario: four buffers of 300 KiB, 300 KiB, 300 KiB and 126,976
    bytes, every write taken in full, the clock advancing between samples. *)
Lemma feed_four_buffers (w : W) id p1 p2 p3 p4 t0 t1 t2 t3 t4 s :
  (∀ w p, snd (io_Write w p) = (len p, None)) →
  len p1 = 307200 → len p2 = 307200 → len p3 = 307200 → len p4 = 126976 →
  (0 <? timeDiff_of t1 t0)%float = true →
  (0 <? timeDiff_of t2 t1)%float = true →
  (0 <? timeDiff_of t3 t2)%float = true →
  let r := feed [(t1, p1); (t2, p2); (t3, p3); (t4, p4)]
                (NewProgressWriterWithID t0 w id) s in
  speed_updates (fed_log r) = 3%nat ∧ GetTotal (fed_sampler r) = 1048576.
Proof.
  intros Hsink H1 H2 H3 H4 Ht1 Ht2 Ht3 r. subst r.
  set (pw0 := NewProgressWriterWithID t0 w id).
  rewrite feed_cons. cbn zeta.
  destruct (Write_sampled t1 p1 pw0 s (len p1) None (Hsink _ _))
    as (Hu1 & Htot1 & Hlp1 & Hlt1); [rewrite H1; by vm_compute|done|].
  set (o1 := Write t1 p1 pw0 s) in *. rewrite H1 in Htot1, Hlp1.
  change (Int64.add (total pw0) 307200) with 307200 in Htot1, Hlp1.
  rewrite feed_cons. cbn zeta.
  destruct (Write_sampled t2 p2 (out_pw o1) (out_store o1) (len p2) None (Hsink _ _))
    as (Hu2 & Htot2 & Hlp2 & Hlt2);
    [rewrite H2, Htot1, Hlp1; by vm_compute|by rewrite Hlt1|].
  set (o2 := Write t2 p2 (out_pw o1) (out_store o1)) in *.
  rewrite H2, Htot1 in Htot2, Hlp2.
  change (Int64.add 307200 307200) with 614400 in Htot2, Hlp2.
  rewrite feed_cons. cbn zeta.
  destruct (Write_sampled t3 p3 (out_pw o2) (out_store o2) (len p3) None (Hsink _ _))
    as (Hu3 & Htot3 & Hlp3 & Hlt3);
    [rewrite H3, Htot2, Hlp2; by vm_compute|by rewrite Hlt2|].
  set (o3 := Write t3 p3 (out_pw o2) (out_store o2)) in *.
  rewrite H3, Htot2 in Htot3, Hlp3.
  change (Int64.add 614400 307200) with 921600 in Htot3, Hlp3.
  rewrite feed_cons. cbn zeta.
  destruct (Write_not_sampled t4 p4 (out_pw o3) (out_store o3) (len p4) None (Hsink _ _))
    as (Hu4 & Htot4 & _ & _);
    [rewrite H4, Htot3, Hlp3; by vm_compute|].
  set (o4 := Write t4 p4 (out_pw o3) (out_store o3)) in *.
  rewrite H4, Htot3 in Htot4.
  change (Int64.add 921600 126976) with 1048576 in Htot4.
  unfold fed_log, fed_sampler, GetTotal. simpl.
  rewrite !speed_updates_app, Hu1, Hu2, Hu3, Hu4, Htot4. done.
Qed.

End Cadence.

(** C2 as stated fails: on such a stream the sampler publishes three
    throughput updates, not one.  Each 300 KiB buffer alone exceeds the
    256 KiB threshold, so each of the first three writes opens and closes a
    sampling window; only the last write, 126,976 bytes, stays below. *)
Lemma sampler_publishes_three_updates_not_one :
  let data := replicate (Z.to_nat 1048576) x00 in
  let r := feed (zip [1000; 2000; 3000; 4000] (chunks (Z.to_nat 307200) data))
                (NewProgressWriterWithID 0 (mkBuffer []) "") initial_store in
  len data = 1048576
  ∧ (∀ (b : Buffer) p, snd (io_Write b p) = (len p, None))
  ∧ (0 <? timeDiff_of 1000 0)%float = true
  ∧ (0 <? timeDiff_of 2000 1000)%float = true
  ∧ (0 <? timeDiff_of 3000 2000)%float = true
  ∧ speed_updates (fed_log r) = 3%nat.
Proof.
  intros data r.
  assert (Hdata : len data = 1048576).
  { subst data. unfold len. rewrite length_replicate. lia. }
  assert (Hsink : ∀ (b : Buffer) p, snd (io_Write b p) = (len p, None))
    by reflexivity.
  assert (Ht1 : (0 <? timeDiff_of 1000 0)%float = true) by (vm_compute; reflexivity).
  assert (Ht2 : (0 <? timeDiff_of 2000 1000)%float = true) by (vm_compute; reflexivity).
  assert (Ht3 : (0 <? timeDiff_of 3000 2000)%float = true) by (vm_compute; reflexivity).
  refine (conj Hdata (conj Hsink (conj Ht1 (conj Ht2 (conj Ht3 _))))).
  destruct (chunks_1MiB_by_300KiB data Hdata)
    as (p1 & p2 & p3 & p4 & Hchunks & H1 & H2 & H3 & H4).
  subst r. rewrite Hchunks. cbn [zip zip_with].
  by apply feed_four_buffers.
Qed.

(** C2, amended. A sampler fed a 1,048,576-byte stream in 300 KiB buffers,
    every underlying write taken in full and the elapsed time positive at
    every sample, publishes exactly three throughput updates before the
    stream completes: one for each of the three full buffers, none for the
    final 126,976 bytes. *)
Theorem sampler_1MiB_in_300KiB_chunks {W : Type} `{Writer W}
    (w : W) (id : string) (data : list byte) (t0 t1 t2 t3 t4 : Z) (s : Store) :
  (∀ w p, snd (io_Write w p) = (len p, None)) →
  len data = 1048576 →
  (0 <? timeDiff_of t1 t0)%float = true →
  (0 <? timeDiff_of t2 t1)%float = true →
  (0 <? timeDiff_of t3 t2)%float = true →
  let r := feed (zip [t1; t2; t3; t4] (chunks (Z.to_nat 307200) data))
                (NewProgressWriterWithID t0 w id) s in
  speed_updates (fed_log r) = 3%nat ∧ GetTotal (fed_sampler r) = 1048576.
Proof.
  intros Hsink Hdata Ht1 Ht2 Ht3.
  destruct (chunks_1MiB_by_300KiB data Hdata)
    as (p1 & p2 & p3 & p4 & -> & H1 & H2 & H3 & H4).
  cbn [zip zip_with].
  by apply feed_four_buffers.
Qed.

Lemma sampler_1MiB_in_300KiB_chunks_witness :
  let data := replicate (Z.to_nat 1048576) xff in
  let r := feed (zip [1010; 1020; 1030; 1040] (chunks (Z.to_nat 307200) data))
                (NewProgressWriterWithID 1000 (mkBuffer []) "track-1")
                initial_store in
  (len data = 1048576
   ∧ (0 <? timeDiff_of 1010 1000)%float = true
   ∧ (0 <? timeDiff_of 1020 1010)%float = true
   ∧ (0 <? timeDiff_of 1030 1020)%float = true)
  ∧ speed_updates (fed_log r) = 3%nat ∧ GetTotal (fed_sampler r) = 1048576.
Proof.
  intros data r.
  assert (Hdata : len data = 1048576).
  { subst data. unfold len. rewrite length_replicate. lia. }
  assert (Ht1 : (0 <? timeDiff_of 1010 1000)%float = true) by (vm_compute; reflexivity).
  assert (Ht2 : (0 <? timeDiff_of 1020 1010)%float = true) by (vm_compute; reflexivity).
  assert (Ht3 : (0 <? timeDiff_of 1030 1020)%float = true) by (vm_compute; reflexivity).
  refine (conj (conj Hdata (conj Ht1 (conj Ht2 Ht3))) _).
  subst r.
  exact (sampler_1MiB_in_300KiB_chunks (mkBuffer []) "track-1" data
           1000 1010 1020 1030 1040 initial_store
           (λ _ _, eq_refl) Hdata Ht1 Ht2 Ht3).
Defined.

(** * Further properties of the store, the sampler and the widget *)

(** ** Snapshots *)

Lemma count_of_cons st it q :
  count_of st (it :: q) = (if bool_decide (Status it = st) then 1 else 0) + count_of st q.
Proof.
  unfold count_of, len. simpl. case_bool_decide; simpl; lia.
Qed.

Lemma count_of_nonneg st q : 0 ≤ count_of st q.
Proof. unfold count_of, len. lia. Qed.

(** The counting loop of the snapshot, from any starting counters. *)
Lemma count_loop q queued completed failed skipped :
  fold_left
    (λ '(queued, completed, failed, skipped) item,
       match Status item with
       | StatusQueued => (queued + 1, completed, failed, skipped)
       | StatusCompleted => (queued, completed + 1, failed, skipped)
       | StatusFailed => (queued, completed, failed + 1, skipped)
       | StatusSkipped => (queued, completed, failed, skipped + 1)
       | StatusDownloading => (queued, completed, failed, skipped)
       end)
    q (queued, completed, failed, skipped)
  = (queued + count_of StatusQueued q, completed + count_of StatusCompleted q,
     failed + count_of StatusFailed q, skipped + count_of StatusSkipped q).
Proof.
  revert queued completed failed skipped.
  induction q as [|it q IH]; intros queued completed failed skipped.
  - unfold count_of, len. simpl. by rewrite !Z.add_0_r.
  - cbn [fold_left]. rewrite !count_of_cons.
    destruct (Status it) eqn:Hst; rewrite IH; simpl;
      repeat (f_equal; try lia).
Qed.

Lemma count_status_spec q :
  count_status q = (count_of StatusQueued q, count_of StatusCompleted q,
                    count_of StatusFailed q, count_of StatusSkipped q).
Proof. unfold count_status. by rewrite count_loop. Qed.

Lemma count_of_total q :
  count_of StatusQueued q + count_of StatusDownloading q
  + count_of StatusCompleted q + count_of StatusFailed q
  + count_of StatusSkipped q = len q.
Proof.
  induction q as [|it q IH]; [done|].
  rewrite !count_of_cons.
  replace (len (it :: q)) with (1 + len q) by (unfold len; simpl; lia).
  destruct (Status it); simpl; lia.
Qed.

Lemma ResetSessionIfComplete_queue s :
  downloadQueue (ResetSessionIfComplete s) = downloadQueue s.
Proof. unfold ResetSessionIfComplete. by case_match. Qed.

(** The snapshot, with its counting loop resolved. *)
Lemma GetDownloadQueue_eq s :
  GetDownloadQueue s =
  let s1 := ResetSessionIfComplete s in
  (mkQueueInfo (0 <? activeDownloads s1) (downloadQueue s) (currentSpeed s1)
               (totalDownloaded s1) (sessionStartTime s1)
               (count_of StatusQueued (downloadQueue s))
               (count_of StatusCompleted (downloadQueue s))
               (count_of StatusFailed (downloadQueue s))
               (count_of StatusSkipped (downloadQueue s)),
   s1).
Proof.
  unfold GetDownloadQueue. rewrite count_status_spec.
  by rewrite ResetSessionIfComplete_queue.
Qed.

Lemma hasActiveOrQueued_false q :
  hasActiveOrQueued q = false ↔ Forall (λ it, pending it = false) q.
Proof.
  unfold hasActiveOrQueued. induction q as [|it q IH]; simpl.
  - split; [constructor|done].
  - rewrite orb_false_iff, IH, Forall_cons. done.
Qed.

Lemma count_of_lookup st q i it :
  q !! i = Some it → Status it = st → 1 ≤ count_of st q.
Proof.
  revert i. induction q as [|x q IH]; intros i Hi Hst; [done|].
  rewrite count_of_cons. pose proof (count_of_nonneg st q).
  destruct i as [|i]; simpl in Hi.
  - simplify_eq. rewrite bool_decide_eq_true_2 by done. lia.
  - specialize (IH _ Hi Hst). case_bool_decide; lia.
Qed.

(** X1. A snapshot returns the store's queue as it is, and its four counts
    are the numbers of Queued, Completed, Failed and Skipped records of
    that queue; Downloading records are counted by none of them, so the
    counts add up to the queue's length minus the Downloading records. *)
Theorem GetDownloadQueue_counts (s : Store) :
  let info := fst (GetDownloadQueue s) in
  qi_Queue info = downloadQueue s
  ∧ qi_QueuedCount info = count_of StatusQueued (qi_Queue info)
  ∧ qi_CompletedCount info = count_of StatusCompleted (qi_Queue info)
  ∧ qi_FailedCount info = count_of StatusFailed (qi_Queue info)
  ∧ qi_SkippedCount info = count_of StatusSkipped (qi_Queue info)
  ∧ qi_QueuedCount info + qi_CompletedCount info + qi_FailedCount info
    + qi_SkippedCount info
    = len (qi_Queue info) - count_of StatusDownloading (qi_Queue info)
  ∧ qi_QueuedCount info + qi_CompletedCount info + qi_FailedCount info
    + qi_SkippedCount info ≤ len (qi_Queue info).
Proof.
  intros info. subst info. rewrite GetDownloadQueue_eq. cbn.
  pose proof (count_of_total (downloadQueue s)) as Htot.
  pose proof (count_of_nonneg StatusDownloading (downloadQueue s)) as Hd.
  repeat split; try done; lia.
Qed.

Lemma ResetSessionIfComplete_idem s :
  ResetSessionIfComplete (ResetSessionIfComplete s) = ResetSessionIfComplete s.
Proof.
  unfold ResetSessionIfComplete.
  destruct (hasActiveOrQueued (downloadQueue s)) eqn:Hp; simpl; by rewrite Hp.
Qed.

(** X2. A snapshot changes nothing in the store while some record is
    Queued or Downloading, and then reports the store's total and session
    start; when no record is pending (an empty queue included) it zeroes
    [totalDownloaded] and [sessionStartTime] in the store, leaves every
    other variable alone, and reports 0 for both.  A second snapshot
    taken right after returns the same as the first. *)
Theorem GetDownloadQueue_session (s : Store) :
  (hasActiveOrQueued (downloadQueue s) = true →
     snd (GetDownloadQueue s) = s
     ∧ qi_TotalDownloaded (fst (GetDownloadQueue s)) = totalDownloaded s
     ∧ qi_SessionStartTime (fst (GetDownloadQueue s)) = sessionStartTime s)
  ∧ (hasActiveOrQueued (downloadQueue s) = false →
       snd (GetDownloadQueue s) = set_totalDownloaded 0 (set_sessionStartTime 0 s)
       ∧ qi_TotalDownloaded (fst (GetDownloadQueue s)) = 0%float
       ∧ qi_SessionStartTime (fst (GetDownloadQueue s)) = 0)
  ∧ GetDownloadQueue (snd (GetDownloadQueue s)) = GetDownloadQueue s.
Proof.
  rewrite (GetDownloadQueue_eq s). cbn [fst snd]. cbn zeta.
  split; [|split].
  - intros Hp. unfold ResetSessionIfComplete. by rewrite Hp.
  - intros Hp. unfold ResetSessionIfComplete. by rewrite Hp.
  - rewrite GetDownloadQueue_eq. cbn zeta.
    by rewrite ResetSessionIfComplete_queue, ResetSessionIfComplete_idem.
Qed.

(** X3. The download that ends a session is never reported: when
    [complete] finalises the only pending record, the store's total grows
    by [finalSize], but the next snapshot finds nothing pending and
    returns [TotalDownloaded = 0] and [SessionStartTime = 0]. *)
Theorem last_completion_is_not_reported
    (now : Z) (id filePath : string) (finalSize : float) (s : Store) (i : nat) :
  first_with_id id (downloadQueue s) i →
  (∀ j it, downloadQueue s !! j = Some it → j ≠ i → pending it = false) →
  let s1 := CompleteDownloadItem now id filePath finalSize s in
  totalDownloaded s1 = (totalDownloaded s + finalSize)%float
  ∧ qi_TotalDownloaded (fst (GetDownloadQueue s1)) = 0%float
  ∧ qi_SessionStartTime (fst (GetDownloadQueue s1)) = 0
  ∧ 1 ≤ qi_CompletedCount (fst (GetDownloadQueue s1)).
Proof.
  intros Hfirst Hothers s1.
  apply first_with_id_find in Hfirst as [it Hf].
  assert (Hs1 : s1 = set_totalDownloaded (totalDownloaded s + finalSize)%float
                  (set_downloadQueue
                     (<[i := mutate now (CallCompleteDownloadItem id filePath finalSize) it]>
                        (downloadQueue s)) s)).
  { subst s1. unfold CompleteDownloadItem. by rewrite Hf. }
  pose proof Hf as Hf'. apply find_by_id_Some in Hf' as (Hi & _ & _).
  assert (Hnone : hasActiveOrQueued (downloadQueue s1) = false).
  { apply hasActiveOrQueued_false, Forall_lookup. intros j it' Hj.
    rewrite Hs1 in Hj. simpl in Hj.
    destruct (decide (j = i)) as [->|Hne].
    - rewrite list_lookup_insert_eq in Hj by (by eapply lookup_lt_Some).
      by simplify_eq.
    - rewrite list_lookup_insert_ne in Hj by done. by eapply Hothers. }
  assert (Hin : downloadQueue s1 !! i
                = Some (mutate now (CallCompleteDownloadItem id filePath finalSize) it)).
  { rewrite Hs1. simpl. apply list_lookup_insert_eq. by eapply lookup_lt_Some. }
  split; [by rewrite Hs1|].
  rewrite GetDownloadQueue_eq. cbn.
  unfold ResetSessionIfComplete. rewrite Hnone. simpl.
  split; [done|]. split; [done|].
  by eapply count_of_lookup.
Qed.

Lemma last_completion_is_not_reported_witness :
  let s := run [(1, CallAddToQueue "a" "Song" "Artist" "Album" "sid");
                (2, CallStartDownloadItem "a")] initial_store in
  let s1 := CompleteDownloadItem 9 "a" "/out/a.mp3" 3 s in
  totalDownloaded s1 = (totalDownloaded s + 3)%float
  ∧ qi_TotalDownloaded (fst (GetDownloadQueue s1)) = 0%float
  ∧ qi_SessionStartTime (fst (GetDownloadQueue s1)) = 0
  ∧ 1 ≤ qi_CompletedCount (fst (GetDownloadQueue s1)).
Proof.
  apply (last_completion_is_not_reported 9 "a" "/out/a.mp3" 3 _ 0%nat).
  - split; [by eexists|]. intros k y _ Hk. lia.
  - intros [|j] it Hj Hne; [done|]. by destruct j.
Defined.

(** ** Session start time *)

Lemma exec_sessionStartTime now c s :
  is_reset (s, c) = false →
  sessionStartTime (exec now c s) =
  match c with
  | CallAddToQueue _ _ _ _ _ =>
      if sessionStartTime s =? 0 then now else sessionStartTime s
  | _ => sessionStartTime s
  end.
Proof.
  unfold is_reset. intros Hreset.
  destruct c; simpl in *; try done;
    unfold AddToQueue, StartDownloadItem, UpdateItemProgress,
      CompleteDownloadItem, FailDownloadItem, SkipDownloadItem,
      GetDownloadQueue, ResetSessionIfComplete, SetDownloading;
    repeat case_match; simplify_eq/=; try done; congruence.
Qed.

(** X4. The session start time is written once per session: an enqueue
    into a closed session ([sessionStartTime = 0]) stores the clock
    reading, and from then on no call changes it until a reset (clearAll,
    or a snapshot / [ResetSessionIfComplete] that finds nothing pending);
    later enqueues in particular keep the first value. *)
Theorem sessionStartTime_set_once (calls : list (Z * Call)) (s : Store) :
  sessionStartTime s ≠ 0 →
  existsb is_reset (history calls s) = false →
  sessionStartTime (run calls s) = sessionStartTime s.
Proof.
  revert s. induction calls as [|[now c] calls IH]; intros s Hopen Hnone; [done|].
  rewrite run_cons. simpl in *.
  apply orb_false_iff in Hnone as [Hc Hrest].
  assert (Hstep : sessionStartTime (exec now c s) = sessionStartTime s).
  { rewrite exec_sessionStartTime by done.
    destruct c; try done. by rewrite (proj2 (Z.eqb_neq _ _) Hopen). }
  rewrite IH; [done|congruence|done].
Qed.

Lemma sessionStartTime_set_once_witness :
  let s := AddToQueue 5 "a" "" "" "" "" initial_store in
  let calls := [(9, CallAddToQueue "b" "" "" "" "");
                (10, CallStartDownloadItem "a");
                (11, CallGetDownloadQueue);
                (12, CallCompleteDownloadItem "a" "/a" 3);
                (13, CallGetDownloadQueue)] in
  sessionStartTime s = 5
  ∧ sessionStartTime (run calls s) = sessionStartTime s.
Proof.
  split; [reflexivity|].
  apply sessionStartTime_set_once; [by vm_compute|by vm_compute].
Defined.

(** ** Unknown ids, enqueue and lookup *)

(** X5. [UpdateItemProgress], [CompleteDownloadItem], [FailDownloadItem]
    and [SkipDownloadItem] on an id the queue does not hold leave the whole
    store as it is: no record, total, cursor or time changes. *)
Theorem keyed_call_unknown_id_is_noop (now : Z) (c : Call) (id : string) (s : Store) :
  call_id c = Some id →
  call_status c ≠ Some StatusDownloading →
  absent id (downloadQueue s) →
  exec now c s = s.
Proof.
  intros Hc Hnostart Habs. apply find_by_id_absent in Habs.
  destruct c; simplify_eq/=;
    [ unfold UpdateItemProgress | unfold CompleteDownloadItem
    | unfold FailDownloadItem | unfold SkipDownloadItem ];
    by rewrite Habs.
Qed.

Lemma keyed_call_unknown_id_is_noop_witness :
  let s := run [(1, CallAddToQueue "a" "" "" "" "");
                (2, CallStartDownloadItem "a")] initial_store in
  exec 3 (CallCompleteDownloadItem "gone" "/x" 4) s = s.
Proof.
  apply (keyed_call_unknown_id_is_noop 3 _ "gone"); [done|done|].
  intros it Hit. apply list_elem_of_singleton in Hit. by subst it.
Defined.

Lemma find_by_id_snoc id q x :
  find_by_id id (q ++ [x]) =
  match find_by_id id q with
  | Some r => Some r
  | None => if decide (ID x = id) then Some (length q, x) else None
  end.
Proof.
  unfold find_by_id. induction q as [|y q IH]; simpl.
  - done.
  - destruct (decide (ID y = id)); [done|]. rewrite IH.
    destruct (list_find (λ it, ID it = id) q) as [[i it]|]; simpl; [done|].
    by destruct (decide (ID x = id)).
Qed.

(** X6. Lookup after enqueue.  If the id was not in the queue, a lookup
    now finds the new Queued record at the end; if it was, the lookup
    still finds the old first record, so id-keyed calls keep acting on the
    older record and the new one is shadowed.  Lookups of other ids are
    not affected. *)
Theorem AddToQueue_lookup
    (now : Z) (id trackName artistName albumName spotifyID : string) (s : Store) :
  let s' := AddToQueue now id trackName artistName albumName spotifyID s in
  find_by_id id (downloadQueue s') =
    match find_by_id id (downloadQueue s) with
    | Some r => Some r
    | None => Some (length (downloadQueue s),
                    new_item id trackName artistName albumName spotifyID)
    end
  ∧ (∀ id', id' ≠ id →
       find_by_id id' (downloadQueue s') = find_by_id id' (downloadQueue s)).
Proof.
  intros s'.
  assert (Hq : downloadQueue s' = downloadQueue s ++
                 [new_item id trackName artistName albumName spotifyID]).
  { subst s'. unfold AddToQueue. by case_match. }
  rewrite Hq. split.
  - rewrite find_by_id_snoc. simpl. by rewrite decide_True.
  - intros id' Hne. rewrite find_by_id_snoc. simpl.
    rewrite decide_False by done. by destruct (find_by_id id' (downloadQueue s)).
Qed.

(** ** What calls keep of the queue *)

Lemma mutate_description now c it : same_description it (mutate now c it).
Proof. by destruct c. Qed.

Lemma cancelled_description now it : same_description it (cancelled now it).
Proof. unfold cancelled. by case_bool_decide. Qed.

(** The queue after a call that removes no record: every record is still
    at its position with its descriptive fields, and the queue is one
    longer exactly when the call is an enqueue. *)
Lemma exec_keeps_records now c s :
  removes_records c = false →
  length (downloadQueue (exec now c s))
  = (length (downloadQueue s) + (if is_enqueue c then 1 else 0))%nat
  ∧ ∀ i it, downloadQueue s !! i = Some it →
      ∃ it', downloadQueue (exec now c s) !! i = Some it' ∧ same_description it it'.
Proof.
  intros Hc.
  assert (Hrefl : ∀ it, same_description it it) by (by intros it).
  destruct (call_id c) as [id|] eqn:Hid.
  - rewrite (exec_keyed_queue now c id s Hid).
    assert (is_enqueue c = false) as -> by (by destruct c).
    destruct (find_by_id id (downloadQueue s)) as [[i0 it0]|] eqn:Hf.
    + apply find_by_id_Some in Hf as (Hi0 & _ & _).
      split; [rewrite length_insert; lia|].
      intros i it Hi. destruct (decide (i = i0)) as [->|Hne].
      * exists (mutate now c it0).
        rewrite list_lookup_insert_eq by (by eapply lookup_lt_Some).
        split; [done|]. assert (it = it0) as -> by congruence.
        apply mutate_description.
      * exists it. by rewrite list_lookup_insert_ne.
    + split; [lia|]. intros i it Hi. by exists it.
  - destruct c; try done; cbn [exec is_enqueue].
    + unfold AddToQueue.
      assert (Hq : ∀ x, downloadQueue
                (if sessionStartTime (set_downloadQueue x s) =? 0
                 then set_sessionStartTime now (set_downloadQueue x s)
                 else set_downloadQueue x s) = x) by (intros x; by case_match).
      cbn zeta. rewrite Hq. split; [by rewrite length_app|].
      intros i it Hi. exists it. split; [by apply lookup_app_l_Some|done].
    + rewrite CancelAllQueuedItems_queue. split; [rewrite length_imap; lia|].
      intros i it Hi. exists (cancelled (clock i) it).
      rewrite list_lookup_imap, Hi. split; [done|]. apply cancelled_description.
    + unfold GetDownloadQueue. cbn zeta.
      destruct (count_status _) as [[[? ?] ?] ?]. cbn [snd].
      rewrite ResetSessionIfComplete_queue. split; [lia|].
      intros i it Hi. by exists it.
    + rewrite ResetSessionIfComplete_queue. split; [lia|].
      intros i it Hi. by exists it.
    + assert (Hq : downloadQueue (SetDownloading downloading s) = downloadQueue s).
      { unfold SetDownloading. by repeat case_match. }
      rewrite Hq. split; [lia|]. intros i it Hi. by exists it.
    + split; [simpl; lia|]. intros i it Hi. by exists it.
    + split; [simpl; lia|]. intros i it Hi. by exists it.
Qed.

Lemma enqueues_cons c calls :
  enqueues (c :: calls) = (if is_enqueue (snd c) then 1 else 0) + enqueues calls.
Proof. unfold enqueues, len. simpl. destruct (is_enqueue (snd c)); simpl; lia. Qed.

(** X7. Only enqueue adds records and only clearTerminal and clearAll
    remove them: over any sequence of other calls (start, progress,
    complete, fail, skip, cancel, snapshots, counter and aggregate setters)
    the queue grows by exactly the number of enqueue calls. *)
Theorem queue_length_counts_enqueues (calls : list (Z * Call)) (s : Store) :
  Forall (λ c, removes_records (snd c) = false) calls →
  len (downloadQueue (run calls s)) = len (downloadQueue s) + enqueues calls.
Proof.
  intros Hcalls. revert s.
  induction Hcalls as [|[now c] calls Hc _ IH]; intros s.
  - unfold enqueues, len. simpl. lia.
  - rewrite run_cons, IH, enqueues_cons. simpl in *.
    destruct (exec_keeps_records now c s Hc) as [Hlen _].
    unfold len. rewrite Hlen. destruct (is_enqueue c); lia.
Qed.

Lemma queue_length_counts_enqueues_witness :
  let calls := [(1, CallAddToQueue "a" "" "" "" "");
                (2, CallStartDownloadItem "a");
                (3, CallAddToQueue "a" "" "" "" "");
                (4, CallCancelAllQueuedItems (λ _, 4));
                (5, CallGetDownloadQueue);
                (6, CallFailDownloadItem "a" "boom")] in
  len (downloadQueue (run calls initial_store))
  = len (downloadQueue initial_store) + enqueues calls.
Proof.
  apply queue_length_counts_enqueues. by repeat constructor.
Defined.

(** X8. A record's descriptive fields are fixed at enqueue: over any
    sequence of calls that removes no record, the record at a position
    stays at that position and keeps its id, track, artist, album and
    source id, whatever happens to its status, sizes, times, message and
    path. *)
Theorem description_is_immutable
    (calls : list (Z * Call)) (s : Store) (i : nat) (it : DownloadItem) :
  Forall (λ c, removes_records (snd c) = false) calls →
  downloadQueue s !! i = Some it →
  ∃ it', downloadQueue (run calls s) !! i = Some it' ∧ same_description it it'.
Proof.
  intros Hcalls. revert s it.
  induction Hcalls as [|[now c] calls Hc _ IH]; intros s it Hi.
  - by exists it.
  - rewrite run_cons. simpl in *.
    destruct (exec_keeps_records now c s Hc) as [_ Hkeep].
    destruct (Hkeep i it Hi) as (it1 & Hi1 & Hd1).
    destruct (IH _ _ Hi1) as (it' & Hi' & Hd').
    exists it'. split; [done|].
    unfold same_description in *. intuition congruence.
Qed.

Lemma description_is_immutable_witness :
  let s := AddToQueue 1 "a" "Song" "Artist" "Album" "sid" initial_store in
  let calls := [(2, CallStartDownloadItem "a");
                (3, CallUpdateItemProgress "a" 1.5 2);
                (4, CallCompleteDownloadItem "a" "/out/a.mp3" 3);
                (5, CallFailDownloadItem "a" "late")] in
  ∃ it', downloadQueue (run calls s) !! 0%nat = Some it'
         ∧ same_description (new_item "a" "Song" "Artist" "Album" "sid") it'.
Proof.
  apply description_is_immutable; [by repeat constructor|done].
Defined.

(** ** Cancelling and clearing *)

Lemma cancelled_Status now it :
  Status (cancelled now it)
  = if bool_decide (Status it = StatusQueued) then StatusSkipped else Status it.
Proof. unfold cancelled. by case_bool_decide. Qed.

Lemma cancelled_idem now1 now2 it :
  cancelled now2 (cancelled now1 it) = cancelled now1 it.
Proof.
  unfold cancelled at 1. rewrite cancelled_Status.
  case_bool_decide as H1; [|done].
  by case_bool_decide.
Qed.

Lemma count_of_cancelled (f : nat → Z) st q :
  count_of st (imap (λ i it, cancelled (f i) it) q) =
  match st with
  | StatusQueued => 0
  | StatusSkipped => count_of StatusSkipped q + count_of StatusQueued q
  | _ => count_of st q
  end.
Proof.
  revert f. induction q as [|it q IH]; intros f.
  - by destruct st.
  - rewrite imap_cons, !count_of_cons, cancelled_Status.
    change (imap ((λ i it0, cancelled (f i) it0) ∘ S) q)
      with (imap (λ i it0, cancelled ((f ∘ S) i) it0) q).
    rewrite (IH (f ∘ S)).
    destruct st, (Status it) eqn:Hst; simpl; lia.
Qed.

(** X9. After [CancelAllQueuedItems] no record is Queued: the Queued
    records have joined the Skipped ones, the numbers of Downloading,
    Completed and Failed records are as before, and cancelling again, at
    any later time, changes nothing (the first cancellation's end times
    stay). *)
Theorem CancelAllQueuedItems_leaves_none_Queued (clock : nat → Z) (s : Store) :
  let q := downloadQueue s in
  let s' := CancelAllQueuedItems clock s in
  let q' := downloadQueue s' in
  count_of StatusQueued q' = 0
  ∧ count_of StatusSkipped q' = count_of StatusSkipped q + count_of StatusQueued q
  ∧ count_of StatusDownloading q' = count_of StatusDownloading q
  ∧ count_of StatusCompleted q' = count_of StatusCompleted q
  ∧ count_of StatusFailed q' = count_of StatusFailed q
  ∧ (∀ later, CancelAllQueuedItems later s' = s').
Proof.
  intros q s' q'. subst q q' s'.
  rewrite CancelAllQueuedItems_queue.
  repeat (split; [by rewrite count_of_cancelled|]).
  intros later.
  assert (Hs : ∀ t x, CancelAllQueuedItems t x
                      = set_downloadQueue
                          (imap (λ i it, cancelled (t i) it) (downloadQueue x)) x).
  { intros t x. unfold CancelAllQueuedItems. f_equal.
    exact (CancelAllQueuedItems_queue t x). }
  rewrite (Hs later), (Hs clock). simpl. unfold set_downloadQueue. simpl.
  f_equal. apply list_eq. intros i. rewrite !list_lookup_imap.
  destruct (downloadQueue s !! i) as [it|]; simpl; [|done].
  by rewrite cancelled_idem.
Qed.

Lemma filter_pending_idem q :
  List.filter pending (List.filter pending q) = List.filter pending q.
Proof.
  induction q as [|it q IH]; simpl; [done|].
  destruct (pending it) eqn:Hp; simpl; [|done]. by rewrite Hp, IH.
Qed.

Lemma count_of_filter_pending st q :
  count_of st (List.filter pending q) =
  match st with
  | StatusQueued | StatusDownloading => count_of st q
  | _ => 0
  end.
Proof.
  induction q as [|it q IH].
  - by destruct st.
  - simpl. unfold pending at 1.
    destruct (Status it) eqn:Hst; simpl;
      rewrite ?count_of_cons, ?Hst, IH; destruct st; simpl; lia.
Qed.

Lemma existsb_filter_pending q :
  existsb pending (List.filter pending q) = existsb pending q.
Proof.
  induction q as [|it q IH]; simpl; [done|].
  destruct (pending it) eqn:Hp; simpl; by rewrite ?Hp, ?IH.
Qed.

(** X10. [ClearDownloadQueue] keeps the numbers of Queued and Downloading
    records and leaves no Completed, Failed or Skipped record; it does
    not change whether anything is pending, so it neither closes a session
    nor keeps one open; and clearing twice is clearing once. *)
Theorem ClearDownloadQueue_keeps_pending (s : Store) :
  let q := downloadQueue s in
  let q' := downloadQueue (ClearDownloadQueue s) in
  count_of StatusQueued q' = count_of StatusQueued q
  ∧ count_of StatusDownloading q' = count_of StatusDownloading q
  ∧ count_of StatusCompleted q' = 0
  ∧ count_of StatusFailed q' = 0
  ∧ count_of StatusSkipped q' = 0
  ∧ hasActiveOrQueued q' = hasActiveOrQueued q
  ∧ ClearDownloadQueue (ClearDownloadQueue s) = ClearDownloadQueue s.
Proof.
  intros q q'.
  assert (Hs : ∀ x, ClearDownloadQueue x
                    = set_downloadQueue (List.filter pending (downloadQueue x)) x).
  { intros x. unfold ClearDownloadQueue. f_equal. apply clear_loop. }
  subst q q'. rewrite !Hs. simpl.
  repeat (split; [by rewrite count_of_filter_pending|]).
  split; [apply existsb_filter_pending|].
  unfold set_downloadQueue. simpl. f_equal. apply filter_pending_idem.
Qed.

(** ** Active-count tracker: a start/stop pair *)

(** X11. An increment followed by a decrement restores the count (short
    of overflow).  When other downloads are still active the pair leaves
    the whole store as it was; when none is, the decrement also zeroes the
    current progress and speed. *)
Theorem SetDownloading_pair (s : Store) :
  0 ≤ activeDownloads s < Int64.max_int →
  let s' := SetDownloading false (SetDownloading true s) in
  activeDownloads s' = activeDownloads s
  ∧ pi_IsDownloading (GetDownloadProgress (SetDownloading true s)) = true
  ∧ (1 ≤ activeDownloads s → s' = s)
  ∧ (activeDownloads s = 0 →
       s' = SetDownloadSpeed 0 (SetDownloadProgress 0 s)).
Proof.
  intros Hc s'. subst s'. unfold Int64.max_int in Hc.
  unfold SetDownloading, GetDownloadProgress. simpl.
  assert (H1 : Int64.add (activeDownloads s) 1 = activeDownloads s + 1).
  { unfold Int64.add. apply wrap_in_range.
    unfold Int64.in_range, Int64.min_int, Int64.max_int. lia. }
  assert (H2 : Int64.add (activeDownloads s + 1) (-1) = activeDownloads s).
  { unfold Int64.add. rewrite wrap_in_range; [lia|].
    unfold Int64.in_range, Int64.min_int, Int64.max_int. lia. }
  rewrite H1, H2.
  split; [|split; [|split]].
  - destruct (Z.leb_spec (activeDownloads s) 0); simpl; lia.
  - apply Z.ltb_lt. lia.
  - intros Hpos. rewrite (proj2 (Z.leb_gt _ _)) by lia. by destruct s.
  - intros H0. rewrite H0. simpl. destruct s. simpl in *. by subst.
Qed.

Lemma SetDownloading_pair_witness :
  let s := run [(1, CallSetDownloading true);
                (2, CallSetDownloadProgress 1.5);
                (2, CallSetDownloadSpeed 2)] initial_store in
  let s' := SetDownloading false (SetDownloading true s) in
  activeDownloads s' = activeDownloads s
  ∧ pi_IsDownloading (GetDownloadProgress (SetDownloading true s)) = true
  ∧ (1 ≤ activeDownloads s → s' = s)
  ∧ (activeDownloads s = 0 →
       s' = SetDownloadSpeed 0 (SetDownloadProgress 0 s)).
Proof.
  apply SetDownloading_pair. split; by vm_compute.
Defined.

(** ** The current-item cursor *)

(** X12. The cursor is written by [StartDownloadItem] and cleared by
    [ClearAllDownloads], and by nothing else: after any sequence of calls it
    is the id of the last start since the last clearAll.  Completing,
    failing, skipping, cancelling or clearing the record it names does not
    reset it. *)
Theorem cursor_is_last_start (calls : list (Z * Call)) (s : Store) :
  GetCurrentItemID (run calls s) =
  fold_left (λ cursor c,
               match snd c with
               | CallStartDownloadItem id => id
               | CallClearAllDownloads => ""
               | _ => cursor
               end) calls (GetCurrentItemID s).
Proof.
  unfold GetCurrentItemID. revert s.
  induction calls as [|[now c] calls IH]; intros s; [done|].
  rewrite run_cons. cbn [fold_left fst snd]. rewrite IH. f_equal.
  destruct c; simpl; try done;
    unfold AddToQueue, UpdateItemProgress,
      CompleteDownloadItem, FailDownloadItem, SkipDownloadItem,
      GetDownloadQueue, ResetSessionIfComplete, SetDownloading;
    repeat case_match; simplify_eq/=; done.
Qed.

Example cursor_outlives_its_record :
  let s := run [(1, CallAddToQueue "a" "" "" "" "");
                (2, CallStartDownloadItem "a");
                (3, CallCompleteDownloadItem "a" "/a" 3);
                (4, CallClearDownloadQueue)] initial_store in
  downloadQueue s = [] ∧ GetCurrentItemID s = "a".
Proof. by vm_compute. Qed.

(** ** Progress sampler: what a write may change *)

Lemma same_but_progress_refl it : same_but_progress it it.
Proof. unfold same_but_progress. by destruct it. Qed.

Lemma same_but_progress_trans a b c :
  same_but_progress a b → same_but_progress b c → same_but_progress a c.
Proof.
  unfold same_but_progress. intros Hab Hbc.
  destruct a, b, c. unfold set_Speed, set_Progress in *. simpl in *.
  congruence.
Qed.

Lemma same_but_progress_queue_refl q : Forall2 same_but_progress q q.
Proof.
  apply Forall2_lookup. intros i.
  destruct (q !! i); constructor. apply same_but_progress_refl.
Qed.

Lemma progress_frame_refl s : progress_frame s s.
Proof. repeat split. apply same_but_progress_queue_refl. Qed.

Lemma progress_frame_trans s1 s2 s3 :
  progress_frame s1 s2 → progress_frame s2 s3 → progress_frame s1 s3.
Proof.
  intros (Ha & Ht & Hs & Hc & Hq) (Ha' & Ht' & Hs' & Hc' & Hq').
  repeat split; try congruence.
  eapply Forall2_trans; [|exact Hq|exact Hq'].
  intros a b c. apply same_but_progress_trans.
Qed.

Lemma publish_frame e s : progress_frame s (publish e s).
Proof.
  destruct e as [v|v|id p v]; simpl;
    [repeat split; apply same_but_progress_queue_refl..|].
  unfold UpdateItemProgress.
  destruct (find_by_id id (downloadQueue s)) as [[i it]|] eqn:Hf;
    [|apply progress_frame_refl].
  apply find_by_id_Some in Hf as (Hi & _ & _).
  repeat split. simpl.
  rewrite <- (list_insert_id (downloadQueue s) i it Hi) at 1.
  apply Forall2_insert.
  - apply same_but_progress_queue_refl.
  - unfold same_but_progress. by destruct it.
Qed.

Lemma publish_log_frame log s :
  progress_frame s (fold_left (λ s e, publish e s) log s).
Proof.
  revert s. induction log as [|e log IH]; intros s; simpl.
  - apply progress_frame_refl.
  - eapply progress_frame_trans; [apply publish_frame|apply IH].
Qed.

(** X13. Writing through the sampler never touches the bookkeeping of the
    queue: over any stream, the store keeps its active-download count,
    session total, session start and cursor, the queue keeps its length,
    and every record keeps every field except [Progress] and [Speed];
    statuses in particular are never changed by a write. *)
Theorem feed_store_frame {W : Type} `{Writer W}
    (calls : list (Z * list byte)) (pw : ProgressWriter W) (s : Store) :
  progress_frame s (fed_store (feed calls pw s)).
Proof.
  revert pw s. induction calls as [|[now p] calls IH]; intros pw s.
  - apply progress_frame_refl.
  - rewrite feed_cons. cbn zeta. unfold fed_store at 1. simpl.
    eapply progress_frame_trans; [|apply IH].
    rewrite Write_store_is_published. apply publish_log_frame.
Qed.

Lemma sub_diag x : Int64.sub x x = 0.
Proof. unfold Int64.sub. by rewrite Z.sub_diag. Qed.

(** The sampling window after one write. *)
Lemma Write_window {W : Type} `{Writer W} now p (pw : ProgressWriter W) s :
  lastBytes pw = lastPrinted pw →
  let pw' := out_pw (Write now p pw s) in
  lastBytes pw' = lastPrinted pw'
  ∧ Int64.sub (total pw') (lastPrinted pw') < sample_threshold
  ∧ itemID pw' = itemID pw
  ∧ startTime pw' = startTime pw.
Proof.
  intros Hlb. unfold Write.
  destruct (io_Write (writer pw) p) as [w' [n err]].
  destruct (Z.leb_spec sample_threshold
              (Int64.sub (Int64.add (total pw) n) (lastPrinted pw))) as [Hle|Hlt].
  - repeat case_match; simplify_eq/=; rewrite sub_diag; done.
  - simpl. done.
Qed.

Lemma fed_sampler_cons {W : Type} `{Writer W} now p calls (pw : ProgressWriter W) s :
  fed_sampler (feed ((now, p) :: calls) pw s)
  = fed_sampler (feed calls (out_pw (Write now p pw s)) (out_store (Write now p pw s))).
Proof. by rewrite feed_cons. Qed.

(** X14. The sampler never holds back a full window: for a sampler fed any
    stream since its construction, fewer than 256 KiB have been written
    since the last sample, the two sample marks [lastBytes] and
    [lastPrinted] agree, and the item id and start time given at
    construction are unchanged. *)
Theorem sampler_window {W : Type} `{Writer W}
    (now0 : Z) (w : W) (id : string) (calls : list (Z * list byte)) (s : Store) :
  let pw' := fed_sampler (feed calls (NewProgressWriterWithID now0 w id) s) in
  Int64.sub (total pw') (lastPrinted pw') < sample_threshold
  ∧ lastBytes pw' = lastPrinted pw'
  ∧ itemID pw' = id
  ∧ startTime pw' = now0.
Proof.
  intros pw'. subst pw'.
  set (pw0 := NewProgressWriterWithID now0 w id).
  assert (Hgen : ∀ calls (pw : ProgressWriter W) s,
             lastBytes pw = lastPrinted pw →
             Int64.sub (total pw) (lastPrinted pw) < sample_threshold →
             let pw' := fed_sampler (feed calls pw s) in
             Int64.sub (total pw') (lastPrinted pw') < sample_threshold
             ∧ lastBytes pw' = lastPrinted pw'
             ∧ itemID pw' = itemID pw
             ∧ startTime pw' = startTime pw).
  { clear. induction calls as [|[now p] calls IH]; intros pw s Hlb Hwin.
    - done.
    - rewrite fed_sampler_cons.
      destruct (Write_window now p pw s Hlb) as (Hlb' & Hwin' & Hid & Hst).
      destruct (IH (out_pw (Write now p pw s)) (out_store (Write now p pw s))
                   Hlb' Hwin') as (H1 & H2 & H3 & H4).
      repeat split; congruence. }
  apply (Hgen calls pw0 s); [done|by vm_compute].
Qed.

(** ** Progress sampler: a sample, with and without elapsed time *)

(** The store and the sampler after a write that crosses the threshold. *)
Lemma Write_sampled_outcome {W : Type} `{Writer W} now p (pw : ProgressWriter W) s :
  let n := fst (snd (io_Write (writer pw) p)) in
  let total' := Int64.add (total pw) n in
  let mb := (Int64.to_float total' / MiB)%float in
  let timeDiff := timeDiff_of now (lastTime pw) in
  let v := ((Int64.to_float (Int64.sub total' (lastBytes pw)) / MiB) / timeDiff)%float in
  sample_threshold ≤ Int64.sub total' (lastPrinted pw) →
  let o := Write now p pw s in
  lastTime (out_pw o) = now
  ∧ lastPrinted (out_pw o) = total'
  ∧ out_store o =
      (let s2 := SetDownloadProgress mb
                   (if (0 <? timeDiff)%float then SetDownloadSpeed v s else s) in
       if bool_decide (itemID pw ≠ "") then
         UpdateItemProgress (itemID pw) mb
           (if (0 <? timeDiff)%float then v else 0%float) s2
       else s2)
  ∧ speed_updates (out_published o) = (if (0 <? timeDiff)%float then 1 else 0)%nat.
Proof.
  intros n total' mb timeDiff v Hthr. subst n total' mb timeDiff v.
  unfold Write.
  destruct (io_Write (writer pw) p) as [w' [n err]]. simpl in *.
  apply Z.leb_le in Hthr. rewrite Hthr.
  destruct (0 <? timeDiff_of now (lastTime pw))%float; by case_bool_decide.
Qed.

(** X15. A sample taken with no measurable elapsed time (the clock has not
    advanced since the previous sample): the write still publishes the
    cumulative progress and restarts the window, and leaves the shared
    current speed as it was; but a sampler bound to an item overwrites that
    item's speed with 0. *)
Theorem Write_sample_without_elapsed_time {W : Type} `{Writer W}
    (now : Z) (p : list byte) (pw : ProgressWriter W) (s : Store) :
  let total' := Int64.add (total pw) (fst (snd (io_Write (writer pw) p))) in
  let mb := (Int64.to_float total' / MiB)%float in
  sample_threshold ≤ Int64.sub total' (lastPrinted pw) →
  (0 <? timeDiff_of now (lastTime pw))%float = false →
  let o := Write now p pw s in
  speed_updates (out_published o) = 0%nat
  ∧ currentSpeed (out_store o) = currentSpeed s
  ∧ currentProgress (out_store o) = mb
  ∧ lastTime (out_pw o) = now
  ∧ lastPrinted (out_pw o) = total'
  ∧ (itemID pw ≠ "" →
       out_store o = UpdateItemProgress (itemID pw) mb 0 (SetDownloadProgress mb s)).
Proof.
  intros total' mb Hthr Hzero o.
  destruct (Write_sampled_outcome now p pw s Hthr) as (Hlt & Hlp & Hst & Hsp).
  fold o in Hlt, Hlp, Hst, Hsp. rewrite Hzero in Hst, Hsp. fold total' mb in Hst.
  split; [done|]. rewrite Hst.
  assert (Hframe : ∀ id x, currentSpeed (UpdateItemProgress id mb 0 x) = currentSpeed x
                         ∧ currentProgress (UpdateItemProgress id mb 0 x)
                           = currentProgress x).
  { intros id x. unfold UpdateItemProgress. by repeat case_match. }
  split; [|split; [|split; [done|split; [done|]]]].
  - case_bool_decide; [rewrite (proj1 (Hframe _ _))|]; done.
  - case_bool_decide; [rewrite (proj2 (Hframe _ _))|]; done.
  - intros Hid. by rewrite bool_decide_eq_true_2.
Qed.

Lemma Write_sample_without_elapsed_time_witness :
  let pw := mkProgressWriter (mkBuffer []) 262143 0 1000 1000 0 "a" in
  let s := SetDownloadSpeed 2.5
             (StartDownloadItem 1 "a" (AddToQueue 1 "a" "" "" "" "" initial_store)) in
  let o := Write 1000 [x01] pw s in
  (sample_threshold ≤ Int64.sub (Int64.add (total pw) 1) (lastPrinted pw)
   ∧ (0 <? timeDiff_of 1000 (lastTime pw))%float = false)
  ∧ speed_updates (out_published o) = 0%nat
  ∧ currentSpeed (out_store o) = currentSpeed s
  ∧ currentProgress (out_store o) = (Int64.to_float 262144 / MiB)%float
  ∧ lastTime (out_pw o) = 1000
  ∧ lastPrinted (out_pw o) = 262144
  ∧ (itemID pw ≠ "" →
       out_store o = UpdateItemProgress (itemID pw) (Int64.to_float 262144 / MiB)%float 0
                       (SetDownloadProgress (Int64.to_float 262144 / MiB)%float s)).
Proof.
  intros pw s o.
  assert (Hthr : sample_threshold
                 ≤ Int64.sub (Int64.add (total pw) 1) (lastPrinted pw)) by (by vm_compute).
  assert (Hzero : (0 <? timeDiff_of 1000 (lastTime pw))%float = false)
    by (vm_compute; reflexivity).
  exact (conj (conj Hthr Hzero)
              (Write_sample_without_elapsed_time 1000 [x01] pw s Hthr Hzero)).
Defined.

(** X16. A sample taken with the clock advanced, by a sampler bound to an
    item of the queue: the first record with that id receives the very
    pair the shared aggregates receive, its [Progress] being the store's
    current progress and its [Speed] the store's current speed. *)
Theorem Write_item_mirrors_aggregates {W : Type} `{Writer W}
    (now : Z) (p : list byte) (pw : ProgressWriter W) (s : Store) (i : nat) :
  sample_threshold
  ≤ Int64.sub (Int64.add (total pw) (fst (snd (io_Write (writer pw) p)))) (lastPrinted pw) →
  (0 <? timeDiff_of now (lastTime pw))%float = true →
  itemID pw ≠ "" →
  first_with_id (itemID pw) (downloadQueue s) i →
  let s' := out_store (Write now p pw s) in
  speed_updates (out_published (Write now p pw s)) = 1%nat
  ∧ ∃ it', downloadQueue s' !! i = Some it'
           ∧ Progress it' = currentProgress s'
           ∧ Speed it' = currentSpeed s'.
Proof.
  intros Hthr Hpos Hid Hfirst s'.
  destruct (Write_sampled_outcome now p pw s Hthr) as (_ & _ & Hst & Hsp).
  rewrite Hpos in Hst, Hsp. rewrite bool_decide_eq_true_2 in Hst by done.
  split; [done|]. subst s'. rewrite Hst. clear Hst Hsp.
  apply first_with_id_find in Hfirst as [it Hf].
  unfold UpdateItemProgress. simpl. rewrite Hf. simpl.
  eexists. split; [apply list_lookup_insert_eq; by eapply find_by_id_lt|]. done.
Qed.

Lemma Write_item_mirrors_aggregates_witness :
  let pw := mkProgressWriter (mkBuffer []) 262143 0 1000 1000 0 "a" in
  let s := StartDownloadItem 1 "a" (AddToQueue 1 "a" "" "" "" "" initial_store) in
  let s' := out_store (Write 1500 [x01] pw s) in
  speed_updates (out_published (Write 1500 [x01] pw s)) = 1%nat
  ∧ ∃ it', downloadQueue s' !! 0%nat = Some it'
           ∧ Progress it' = currentProgress s'
           ∧ Speed it' = currentSpeed s'.
Proof.
  apply (Write_item_mirrors_aggregates 1500 [x01] _ _ 0%nat).
  - by vm_compute.
  - vm_compute. reflexivity.
  - done.
  - split; [by eexists|]. intros k y _ Hk. lia.
Defined.

(** ** Progress sampler: samplers that are not bound to a record *)

Lemma fed_store_cons {W : Type} `{Writer W} now p calls (pw : ProgressWriter W) s :
  fed_store (feed ((now, p) :: calls) pw s)
  = fed_store (feed calls (out_pw (Write now p pw s)) (out_store (Write now p pw s))).
Proof. by rewrite feed_cons. Qed.

Lemma Write_unbound {W : Type} `{Writer W} now p (pw : ProgressWriter W) s :
  itemID pw = "" ∨ absent (itemID pw) (downloadQueue s) →
  downloadQueue (out_store (Write now p pw s)) = downloadQueue s
  ∧ itemID (out_pw (Write now p pw s)) = itemID pw.
Proof.
  intros Hunbound.
  assert (Hupd : ∀ mb v x, downloadQueue x = downloadQueue s →
            bool_decide (itemID pw ≠ "") = true →
            downloadQueue (UpdateItemProgress (itemID pw) mb v x) = downloadQueue s).
  { intros mb v x Hx Hid. apply bool_decide_eq_true in Hid.
    destruct Hunbound as [Hempty|Habs]; [done|].
    unfold UpdateItemProgress. rewrite Hx.
    by rewrite (find_by_id_absent _ _ Habs). }
  unfold Write. destruct (io_Write (writer pw) p) as [w' [n err]].
  repeat case_match; simplify_eq/=; split; try done; by apply Hupd.
Qed.

(** X18. A sampler built without an item id, or with an id the queue does
    not hold, never writes to the queue: over any stream the queue after
    is the queue before, record for record, and only the shared current
    progress and speed can have moved. *)
Theorem feed_unbound_keeps_queue {W : Type} `{Writer W}
    (calls : list (Z * list byte)) (pw : ProgressWriter W) (s : Store) :
  itemID pw = "" ∨ absent (itemID pw) (downloadQueue s) →
  downloadQueue (fed_store (feed calls pw s)) = downloadQueue s.
Proof.
  revert pw s. induction calls as [|[now p] calls IH]; intros pw s Hunbound; [done|].
  rewrite fed_store_cons.
  destruct (Write_unbound now p pw s Hunbound) as [Hq Hid].
  rewrite IH; [done|]. by rewrite Hid, Hq.
Qed.

Lemma feed_unbound_keeps_queue_witness :
  let s := StartDownloadItem 2 "a" (AddToQueue 1 "a" "" "" "" "" initial_store) in
  let pw := mkProgressWriter (mkBuffer []) 262143 0 1000 1000 0 "" in
  let calls := [(1500, [x01]); (1600, [x02; x03])] in
  itemID pw = ""
  ∧ speed_updates (fed_log (feed calls pw s)) = 1%nat
  ∧ downloadQueue (fed_store (feed calls pw s)) = downloadQueue s.
Proof.
  split; [reflexivity|]. split; [by vm_compute|].
  apply feed_unbound_keeps_queue. by left.
Defined.

(** ** The progress-bar widget *)

Lemma float_ltb_leb (x y : float) :
  (x <? y)%float = true → (x <=? y)%float = true.
Proof.
  rewrite FloatAxioms.ltb_spec, FloatAxioms.leb_spec. unfold SFltb, SFleb.
  by destruct (SFcompare (Prim2SF x) (Prim2SF y)) as [[]|].
Qed.

Lemma float_ltb_not_nan_r (x y : float) :
  (x <? y)%float = true → PrimFloat.is_nan y = false.
Proof.
  rewrite FloatAxioms.ltb_spec. unfold SFltb. intros Hlt.
  destruct (PrimFloat.is_nan y) eqn:Hnan; [|done].
  unfold Prim2SF at 2 in Hlt. rewrite Hnan in Hlt.
  by destruct (Prim2SF x).
Qed.

Lemma is_neg_zero_eq (x : float) :
  Frontend.is_neg_zero x = true → x = (-0)%float.
Proof.
  unfold Frontend.is_neg_zero. rewrite FloatAxioms.classify_spec.
  intros Hc. rewrite <- (SF2Prim_Prim2SF x).
  unfold SF64classify, SFclassify in Hc.
  destruct (Prim2SF x) as [[]| []| |[] m e]; try discriminate; try reflexivity;
    by destruct (Z.eqb _ _).
Qed.

(** [Math.max(0, x)] and [Math.min(100, y)] on numbers that are not NaN. *)
Lemma Math_max_0 (x : float) :
  PrimFloat.is_nan x = false →
  Frontend.Math_max 0 x = if (0 <? x)%float then x else 0%float.
Proof.
  intros Hx. unfold Frontend.Math_max. rewrite Hx.
  change (PrimFloat.is_nan 0) with false. simpl.
  destruct (0 <? x)%float; [done|].
  change (Frontend.is_neg_zero 0) with false. by destruct (x <? 0)%float.
Qed.

Lemma Math_min_100_bounds (y : float) :
  PrimFloat.is_nan y = false →
  (0 <=? y)%float = true →
  (0 <=? Frontend.Math_min 100 y)%float = true
  ∧ (Frontend.Math_min 100 y <=? 100)%float = true
  ∧ ((y <? 100)%float = true → Frontend.Math_min 100 y = y).
Proof.
  intros Hy H0. unfold Frontend.Math_min. rewrite Hy.
  change (PrimFloat.is_nan 100) with false. simpl.
  destruct (y <? 100)%float eqn:Hlt.
  - split; [done|]. split; [by apply float_ltb_leb|done].
  - split; [|split; [|done]].
    + destruct (100 <? y)%float; [reflexivity|].
      destruct (Frontend.is_neg_zero y); [done|reflexivity].
    + destruct (100 <? y)%float; [reflexivity|].
      destruct (Frontend.is_neg_zero y) eqn:Hz; [|reflexivity].
      apply is_neg_zero_eq in Hz. subst y. reflexivity.
Qed.

(** X17. The percentage the progress bar shows, [Math.min(100,
    Math.max(0, progress))]: for every progress value that is a number it
    lies between 0 and 100, and it is the progress itself when that lies
    strictly between 0 and 100; a NaN progress is not clamped and reaches
    the bar as NaN. *)
Theorem clampedProgress_bounds (progress : float) :
  (PrimFloat.is_nan progress = false →
     (0 <=? Frontend.clampedProgress progress)%float = true
     ∧ (Frontend.clampedProgress progress <=? 100)%float = true)
  ∧ ((0 <? progress)%float = true → (progress <? 100)%float = true →
       Frontend.clampedProgress progress = progress)
  ∧ (PrimFloat.is_nan progress = true →
       PrimFloat.is_nan (Frontend.clampedProgress progress) = true).
Proof.
  unfold Frontend.clampedProgress. split; [|split].
  - intros Hnan. rewrite (Math_max_0 _ Hnan).
    destruct (0 <? progress)%float eqn:Hpos.
    + destruct (Math_min_100_bounds progress Hnan (float_ltb_leb _ _ Hpos))
        as (H1 & H2 & _). done.
    + destruct (Math_min_100_bounds 0%float eq_refl eq_refl) as (H1 & H2 & _). done.
  - intros Hpos Hlt.
    pose proof (float_ltb_not_nan_r _ _ Hpos) as Hnan.
    rewrite (Math_max_0 _ Hnan), Hpos.
    by destruct (Math_min_100_bounds progress Hnan (float_ltb_leb _ _ Hpos))
      as (_ & _ & ->).
  - intros Hnan. unfold Frontend.Math_max. rewrite Hnan.
    change (PrimFloat.is_nan 0) with false. simpl. reflexivity.
Qed.

(** Values outside the range, the two zeros and the infinities. *)
Example clampedProgress_edges :
  Frontend.clampedProgress 150 = 100%float
  ∧ Frontend.clampedProgress (-5) = 0%float
  ∧ Frontend.clampedProgress 42.5 = 42.5%float
  ∧ Frontend.clampedProgress (-0) = 0%float
  ∧ Frontend.clampedProgress infinity = 100%float
  ∧ Frontend.clampedProgress neg_infinity = 0%float
  ∧ Frontend.Math_max (-0) 0 = 0%float
  ∧ Frontend.Math_min 0 (-0) = (-0)%float.
Proof. repeat split; reflexivity. Qed.
